(** * Secure GPS tracker: the authentication and authorisation core

    A shallow embedding of the Express backend (the five route handlers, the
    bearer-token middleware and the helpers they call) over an explicit
    SQLite state, followed by the properties the specification states about
    it.

    Conventions of the embedding.
    - A table is the list of its rows in insertion order.  The code never
      deletes a row, so the [AUTOINCREMENT] id of a new row is one more than
      the largest id of the table.
    - Instants are integers: [Date.now()] in milliseconds.  [expiresAt] is
      written with [toISOString] and read back with [new Date], which keeps
      the millisecond value; [CURRENT_TIMESTAMP] has a resolution of one
      second and is compared as text, which orders it as the number of whole
      seconds.
    - Strings are sequences of one-byte code units.
    - A handler runs to completion before the next request is taken.  Only
      [POST /request-otp] awaits, and its one write to the database is a
      single synchronous statement.
    - What a handler receives from outside (the clock, the DNS answers, the
      random digits, the outcome of [sendMail]) is an argument of the
      handler.
    - The library [jsonwebtoken] and the environment variables are the fields
      of a [config].
    - The fields [email], [otp] and [viewerEmail] of a body are JSON strings
      or absent.  What the handlers do with another truthy value there is
      decided inside [better-sqlite3] and by the coercions of the regular
      expression, and is left out. *)

From Stdlib Require Import ZArith List String Ascii Bool Lia.
Import ListNotations.
Open Scope string_scope.
Open Scope Z_scope.

(** ** Regular expressions, as far as [isValidEmailFormat] needs them *)

Module Regex.

Inductive re : Type :=
| Void
| Eps
| Class (p : ascii -> bool)
| Seq (a b : re)
| Alt (a b : re)
| Star (a : re).

(** [a+] *)
Definition Plus (a : re) : re := Seq a (Star a).

Fixpoint nullable (r : re) : bool :=
  match r with
  | Void => false
  | Eps => true
  | Class _ => false
  | Seq a b => nullable a && nullable b
  | Alt a b => nullable a || nullable b
  | Star _ => true
  end.

Fixpoint deriv (c : ascii) (r : re) : re :=
  match r with
  | Void => Void
  | Eps => Void
  | Class p => if p c then Eps else Void
  | Seq a b =>
      if nullable a then Alt (Seq (deriv c a) b) (deriv c b)
      else Seq (deriv c a) b
  | Alt a b => Alt (deriv c a) (deriv c b)
  | Star a => Seq (deriv c a) (Star a)
  end.

(** [/^r$/.test(s)] *)
Fixpoint test (r : re) (s : string) : bool :=
  match s with
  | EmptyString => nullable r
  | String c s' => test (deriv c r) s'
  end.

(** [\s] on one-byte code units: TAB, LF, VT, FF, CR, space, NBSP. *)
Definition is_space (c : ascii) : bool :=
  let n := N_of_ascii c in
  ((9 <=? n) && (n <=? 13) || (n =? 32) || (n =? 160))%N.

Definition chr (a : ascii) : re := Class (Ascii.eqb a).

End Regex.

(** ** JavaScript values and helpers *)

(** A number of a parsed JSON body: an IEEE 754 double other than NaN, which
    [JSON.parse] never yields (a literal out of range parses to an
    infinity).  [NFinite neg m e] is [m * 2^e], negated when [neg]. *)
Inductive number : Type :=
| NZero (neg : bool)
| NInfinity (neg : bool)
| NFinite (neg : bool) (m : positive) (e : Z).

(** A value of a parsed JSON body; [JUndefined] is what reading an absent
    field gives. *)
#[local] Set Warnings "-register-all".
Inductive jsval : Type :=
| JUndefined
| JNull
| JBool (b : bool)
| JNum (x : number)
| JStr (s : string)
| JArray (items : list jsval)
| JObject (fields : list (string * jsval)).

(** A parsed JSON object. *)
Definition json_body : Type := list (string * jsval).

(** [body[k]] *)
Fixpoint field (body : json_body) (k : string) : jsval :=
  match body with
  | [] => JUndefined
  | (k', v) :: rest => if String.eqb k' k then v else field rest k
  end.

(** [typeof v === 'number'] *)
Definition typeof_number (v : jsval) : option number :=
  match v with
  | JNum x => Some x
  | _ => None
  end.

(** [v === s] for a string literal [s] *)
Definition strict_eq_str (v : jsval) (s : string) : bool :=
  match v with
  | JStr s' => String.eqb s' s
  | _ => false
  end.

(** A field that the handlers hand on as a string (to the regular expression,
    to [split], to a bound SQL parameter) is a JSON string or absent; the
    front end sends nothing else there.  [None] is the absent field. *)
Definition str_field : Type := option string.

(** [!v] is false *)
Definition truthy (v : str_field) : bool :=
  match v with
  | Some (String _ _) => true
  | _ => false
  end.

(** [v || ''] *)
Definition or_empty (v : str_field) : string :=
  match v with
  | Some s => s
  | None => ""
  end.

(** [s.split(sep)] for a separator of one character *)
Fixpoint split (sep : ascii) (s : string) : list string :=
  match s with
  | EmptyString => [""]
  | String c s' =>
      if Ascii.eqb c sep then "" :: split sep s'
      else match split sep s' with
           | h :: t => String c h :: t
           | [] => [String c ""]
           end
  end.

(** [ORDER BY ... DESC LIMIT 1]: the row that no other row beats, [lt a b]
    saying that [b] comes before [a] in the descending order. *)
Definition keep_top {A : Type} (lt : A -> A -> bool) (best : option A) (r : A)
  : option A :=
  match best with
  | None => Some r
  | Some b => if lt b r then Some r else Some b
  end.

Definition top_by {A : Type} (lt : A -> A -> bool) (rows : list A) : option A :=
  fold_left (keep_top lt) rows None.

(** The next [AUTOINCREMENT] id of a table whose ids are [ids]. *)
Definition next_id (ids : list Z) : Z := 1 + fold_right Z.max 0 ids.

(** ** The database *)

Record otp_row : Type := mk_otp {
  otp_id : Z;
  otp_email : string;
  otp_code : string;
  otp_expiresAt : Z;
  otp_consumed : Z
}.

(** [role] is a nullable column; [id] and [createdAt] are never read. *)
Record user_row : Type := mk_user {
  usr_email : string;
  usr_is_verified : Z;
  usr_role : option string
}.

Record loc_row : Type := mk_loc {
  loc_id : Z;
  loc_email : string;
  loc_lat : number;
  loc_lng : number;
  loc_updatedAt : Z
}.

Record perm_row : Type := mk_perm {
  perm_viewer : string;
  perm_sharer : string;
  perm_granted : Z
}.

(** The tables, and the calls made to [transporter.sendMail] so far. *)
Record state : Type := mk_state {
  otps : list otp_row;
  users : list user_row;
  locations : list loc_row;
  permissions : list perm_row;
  outbox : list (string * string)
}.

Definition empty_state : state := mk_state [] [] [] [] [].

Definition set_otps (st : state) (t : list otp_row) : state :=
  mk_state t (users st) (locations st) (permissions st) (outbox st).

Definition set_users (st : state) (t : list user_row) : state :=
  mk_state (otps st) t (locations st) (permissions st) (outbox st).

Definition set_locations (st : state) (t : list loc_row) : state :=
  mk_state (otps st) (users st) t (permissions st) (outbox st).

Definition set_permissions (st : state) (t : list perm_row) : state :=
  mk_state (otps st) (users st) (locations st) t (outbox st).

Definition set_outbox (st : state) (t : list (string * string)) : state :=
  mk_state (otps st) (users st) (locations st) (permissions st) t.

(** ** Configuration and helpers *)

(** What a verified token carries: [signToken] writes [user.email] and
    [user.role], the latter a nullable column. *)
Record claims : Type := mk_claims {
  tok_email : string;
  tok_role : option string
}.

(** [JWT_SECRET] is [process.env.JWT_SECRET], a string or undefined.
    [jwt_sign p secret ttl now] is [jwt.sign(p, secret, {expiresIn: ttl})]
    called at [now] and [jwt_verify token secret now] is [jwt.verify]; each
    is [None] when the library throws, as it does without a secret. *)
Record config : Type := mk_config {
  JWT_SECRET : str_field;
  OTP_TTL : Z;
  jwt_sign : claims -> str_field -> Z -> Z -> option string;
  jwt_verify : string -> str_field -> Z -> option claims
}.

(** Seven days, in seconds. *)
Definition expiresIn_7d : Z := 7 * 24 * 60 * 60.

(** [generateOtp(n)]: [rnd i] is the digit [Math.floor(Math.random() * 10)]
    of the [i]-th draw. *)
Definition digit (d : N) : ascii := ascii_of_N (48 + d mod 10).

Definition generateOtp (n : nat) (rnd : nat -> N) : string :=
  string_of_list_ascii (map (fun i => digit (rnd i)) (seq 0 n)).

(** [signToken(user)]; [None] when [jwt.sign] throws. *)
Definition signToken (cfg : config) (now : Z) (user : user_row)
  : option string :=
  jwt_sign cfg (mk_claims (usr_email user) (usr_role user))
    (JWT_SECRET cfg) expiresIn_7d now.

(** [[^\s@]] *)
Definition email_char (c : ascii) : bool :=
  negb (Regex.is_space c || Ascii.eqb c "@"%char).

(** [^[^\s@]+@[^\s@]+\.[^\s@]+$] *)
Definition email_re : Regex.re :=
  Regex.Seq (Regex.Plus (Regex.Class email_char))
    (Regex.Seq (Regex.chr "@")
       (Regex.Seq (Regex.Plus (Regex.Class email_char))
          (Regex.Seq (Regex.chr ".")
             (Regex.Plus (Regex.Class email_char))))).

Definition isValidEmailFormat (email : string) : bool :=
  Regex.test email_re email.

(** An answer of the resolver: the MX records of a domain, [None] when
    [dns.resolveMx] rejects. *)
Record mx_record : Type := mk_mx {
  mx_exchange : string;
  mx_priority : Z
}.

Definition resolver : Type := string -> option (list mx_record).

Definition domainHasMX (dns : resolver) (email : string) : bool :=
  match nth_error (split "@" email) 1 with
  | None => false
  | Some EmptyString => false
  | Some domain =>
      match dns domain with
      | None => false
      | Some records => (0 <? List.length records)%nat
      end
  end.

(** What [transporter.sendMail] does: it throws, or it returns an [info]
    whose [rejected] list is given. *)
Inductive mail_outcome : Type :=
| MailThrows
| MailInfo (rejected : list string).

(** [sendOtpEmail] returns normally. *)
Definition delivered (m : mail_outcome) : bool :=
  match m with
  | MailThrows => false
  | MailInfo [] => true
  | MailInfo (_ :: _) => false
  end.

(** ** Responses *)

(** The value handed to [res.json], before it is serialised (which writes
    an infinity as [null]); [RUncaught] is the answer of Express to an
    exception that no handler caught. *)
Inductive res_body : Type :=
| RError (reason : string)
| RMessage (message : string)
| RVerified (token : string) (email : string) (role : option string)
| RLocation (email : string) (lat lng : number) (updatedAt : Z)
| RGranted
| RUncaught.

Record response : Type := mk_response {
  status : Z;
  body : res_body
}.

Definition error (code : Z) (reason : string) : response :=
  mk_response code (RError reason).

Definition ok (b : res_body) : response := mk_response 200 b.

(** An exception that no handler catches: Express answers 500. *)
Definition uncaught : response := mk_response 500 RUncaught.

(** ** The SQL statements *)

(** [WHERE email = ? AND consumed = 0] *)
Definition otp_pending (email : string) (r : otp_row) : bool :=
  String.eqb (otp_email r) email && (otp_consumed r =? 0).

(** [ORDER BY id DESC] *)
Definition otp_older (a b : otp_row) : bool := otp_id a <? otp_id b.

(** [SELECT * FROM otps WHERE email = ? AND consumed = 0
     ORDER BY id DESC LIMIT 1] *)
Definition select_otp (t : list otp_row) (email : string) : option otp_row :=
  top_by otp_older (filter (otp_pending email) t).

Definition consume (id : Z) (r : otp_row) : otp_row :=
  if otp_id r =? id
  then mk_otp (otp_id r) (otp_email r) (otp_code r) (otp_expiresAt r) 1
  else r.

(** [UPDATE otps SET consumed = 1 WHERE id = ?] *)
Definition consume_otp (t : list otp_row) (id : Z) : list otp_row :=
  map (consume id) t.

(** [INSERT INTO otps (email, code, expiresAt) VALUES (?, ?, ?)] *)
Definition insert_otp (t : list otp_row) (email code : string) (expiresAt : Z)
  : list otp_row :=
  (t ++ [mk_otp (next_id (map otp_id t)) email code expiresAt 0])%list.

(** [SELECT * FROM users WHERE email = ?] *)
Definition select_user (t : list user_row) (email : string) : option user_row :=
  find (fun u => String.eqb (usr_email u) email) t.

(** [INSERT INTO users (email, is_verified, role) VALUES (?, 1, ?)] *)
Definition insert_user (t : list user_row) (email role : string)
  : list user_row :=
  (t ++ [mk_user email 1 (Some role)])%list.

Definition update_users (f : user_row -> user_row) (email : string)
  (t : list user_row) : list user_row :=
  map (fun u => if String.eqb (usr_email u) email then f u else u) t.

(** [UPDATE users SET is_verified = 1 WHERE email = ?] *)
Definition set_verified (u : user_row) : user_row :=
  mk_user (usr_email u) 1 (usr_role u).

(** [UPDATE users SET role = ? WHERE email = ?] *)
Definition set_role (role : string) (u : user_row) : user_row :=
  mk_user (usr_email u) (usr_is_verified u) (Some role).

(** What a [REAL] column gives back for a double: the double, with the
    sign of a zero lost (SQLite keeps a real without a fraction as an
    integer). *)
Definition sqlite_real (x : number) : number :=
  match x with
  | NZero _ => NZero false
  | _ => x
  end.

(** [INSERT INTO locations (email, lat, lng) VALUES (?, ?, ?)], with
    [updatedAt] defaulting to [CURRENT_TIMESTAMP]. *)
Definition insert_location (t : list loc_row) (email : string)
  (lat lng : number) (now : Z) : list loc_row :=
  (t ++ [mk_loc (next_id (map loc_id t)) email (sqlite_real lat)
           (sqlite_real lng) (now / 1000)])%list.

(** [ORDER BY updatedAt DESC, id DESC] *)
Definition loc_older (a b : loc_row) : bool :=
  (loc_updatedAt a <? loc_updatedAt b)
  || ((loc_updatedAt a =? loc_updatedAt b) && (loc_id a <? loc_id b)).

(** [SELECT email, lat, lng, updatedAt FROM locations WHERE email = ?
     ORDER BY updatedAt DESC, id DESC LIMIT 1] *)
Definition select_latest (t : list loc_row) (email : string) : option loc_row :=
  top_by loc_older (filter (fun r => String.eqb (loc_email r) email) t).

Definition perm_key (viewer sharer : string) (r : perm_row) : bool :=
  String.eqb (perm_viewer r) viewer && String.eqb (perm_sharer r) sharer.

(** [SELECT 1 FROM permissions
     WHERE viewer_email = ? AND sharer_email = ? AND granted = 1 LIMIT 1] *)
Definition has_permission (t : list perm_row) (viewer sharer : string) : bool :=
  existsb (fun r => perm_key viewer sharer r && (perm_granted r =? 1)) t.

Definition set_granted (r : perm_row) : perm_row :=
  mk_perm (perm_viewer r) (perm_sharer r) 1.

(** [INSERT INTO permissions (viewer_email, sharer_email, granted)
     VALUES (?, ?, 1)
     ON CONFLICT(viewer_email, sharer_email) DO UPDATE SET granted = 1] *)
Definition upsert_permission (t : list perm_row) (viewer sharer : string)
  : list perm_row :=
  if existsb (perm_key viewer sharer) t
  then map (fun r => if perm_key viewer sharer r then set_granted r else r) t
  else (t ++ [mk_perm viewer sharer 1])%list.

(** ** The handlers *)

(** [POST /request-otp] *)
Definition request_otp (cfg : config) (now : Z) (dns : resolver)
  (rnd : nat -> N) (mail : mail_outcome) (email : str_field) (st : state)
  : response * state :=
  if negb (truthy email) then (error 400 "email_required", st)
  else
    let email := or_empty email in
    if negb (isValidEmailFormat email)
    then (error 400 "invalid_email_format", st)
    else if negb (domainHasMX dns email)
    then (error 400 "invalid_email_domain", st)
    else
      let code := generateOtp 6 rnd in
      let expiresAt := now + OTP_TTL cfg * 1000 in
      let st1 := set_otps st (insert_otp (otps st) email code expiresAt) in
      let st2 := set_outbox st1 (outbox st1 ++ [(email, code)])%list in
      if delivered mail then (ok (RMessage "otp_sent"), st2)
      else (error 500 "email_failed", st2).

(** [role === 'viewer' ? 'viewer' : 'sharer'] *)
Definition finalRole (role : jsval) : string :=
  if strict_eq_str role "viewer" then "viewer" else "sharer".

(** The user part of [POST /verify-otp]: look the user up, create or repair
    the row, read it again. *)
Definition upsert_user (email : string) (role : jsval) (t : list user_row)
  : list user_row :=
  match select_user t email with
  | None => insert_user t email (finalRole role)
  | Some user =>
      let t1 := if usr_is_verified user =? 0
                then update_users set_verified email t else t in
      if negb (truthy (usr_role user))
      then update_users (set_role (finalRole role)) email t1 else t1
  end.

(** [POST /verify-otp] *)
Definition verify_otp (cfg : config) (now : Z) (email otp : str_field)
  (role : jsval) (st : state) : response * state :=
  if negb (truthy email) || negb (truthy otp)
  then (error 400 "email_and_otp_required", st)
  else
    let email := or_empty email in
    let otp := or_empty otp in
    match select_otp (otps st) email with
    | None => (error 400 "no_otp_requested", st)
    | Some record =>
        if otp_expiresAt record <? now then (error 400 "otp_expired", st)
        else if negb (String.eqb otp (otp_code record))
        then (error 401 "invalid_otp", st)
        else
          let st1 := set_otps st (consume_otp (otps st) (otp_id record)) in
          let st2 := set_users st1 (upsert_user email role (users st1)) in
          match select_user (users st2) email with
          | None => (uncaught, st2)
          | Some user =>
              match signToken cfg now user with
              | None => (uncaught, st2)
              | Some token =>
                  (ok (RVerified token email (usr_role user)), st2)
              end
          end
    end.

(** The JWT middleware: the response it sends, or the payload it puts in
    [req.user]. *)
Definition authMiddleware (cfg : config) (now : Z) (authorization : str_field)
  : response + claims :=
  match nth_error (split " " (or_empty authorization)) 1 with
  | None => inl (error 401 "missing_token")
  | Some EmptyString => inl (error 401 "missing_token")
  | Some token =>
      match jwt_verify cfg token (JWT_SECRET cfg) now with
      | None => inl (error 401 "invalid_token")
      | Some payload => inr payload
      end
  end.

(** [req.user.role === r] *)
Definition role_is (user : claims) (r : string) : bool :=
  match tok_role user with
  | Some r' => String.eqb r' r
  | None => false
  end.

(** [POST /locations] *)
Definition post_location (cfg : config) (now : Z) (authorization : str_field)
  (req_body : json_body) (st : state) : response * state :=
  match authMiddleware cfg now authorization with
  | inl r => (r, st)
  | inr user =>
      if negb (role_is user "sharer")
      then (error 403 "only_sharers_can_post", st)
      else
        match typeof_number (field req_body "lat"),
              typeof_number (field req_body "lng") with
        | Some lat, Some lng =>
            (ok (RMessage "location_saved"),
             set_locations st
               (insert_location (locations st) (tok_email user) lat lng now))
        | _, _ => (error 400 "lat_and_lng_required", st)
        end
  end.

(** [GET /locations/:email] *)
Definition get_location (cfg : config) (now : Z) (authorization : str_field)
  (sharerEmail : string) (st : state) : response * state :=
  match authMiddleware cfg now authorization with
  | inl r => (r, st)
  | inr user =>
      if negb (role_is user "viewer")
      then (error 403 "only_viewers_can_fetch", st)
      else if negb (has_permission (permissions st) (tok_email user) sharerEmail)
      then (error 403 "no_permission", st)
      else
        match select_latest (locations st) sharerEmail with
        | None => (error 404 "no_location_found", st)
        | Some loc =>
            (ok (RLocation (loc_email loc) (loc_lat loc) (loc_lng loc)
                   (loc_updatedAt loc)), st)
        end
  end.

(** [POST /permissions/grant] *)
Definition grant_permission (cfg : config) (now : Z)
  (authorization : str_field) (viewerEmail : str_field) (st : state)
  : response * state :=
  match authMiddleware cfg now authorization with
  | inl r => (r, st)
  | inr user =>
      if negb (role_is user "sharer")
      then (error 403 "only_sharers_can_grant", st)
      else if negb (truthy viewerEmail)
      then (error 400 "viewer_email_required", st)
      else
        (ok RGranted,
         set_permissions st
           (upsert_permission (permissions st) (or_empty viewerEmail)
              (tok_email user)))
  end.

(** ** Runs of the server *)

Inductive request : Type :=
| RequestOtp (dns : resolver) (rnd : nat -> N) (mail : mail_outcome)
    (email : str_field)
| VerifyOtp (email otp : str_field) (role : jsval)
| PostLocation (authorization : str_field) (req_body : json_body)
| GetLocation (authorization : str_field) (sharerEmail : string)
| GrantPermission (authorization : str_field) (viewerEmail : str_field).

(** One request, received at [now]. *)
Definition handle (cfg : config) (now : Z) (rq : request) (st : state)
  : response * state :=
  match rq with
  | RequestOtp dns rnd mail email => request_otp cfg now dns rnd mail email st
  | VerifyOtp email otp role => verify_otp cfg now email otp role st
  | PostLocation a b => post_location cfg now a b st
  | GetLocation a e => get_location cfg now a e st
  | GrantPermission a v => grant_permission cfg now a v st
  end.

(** The state after a sequence of requests, each with the instant at which
    it is handled. *)
Fixpoint run (cfg : config) (rqs : list (Z * request)) (st : state) : state :=
  match rqs with
  | [] => st
  | (now, rq) :: rest => run cfg rest (snd (handle cfg now rq st))
  end.

(** ** Invariants of the schema *)

(** [UNIQUE(viewer_email, sharer_email)] *)
Definition perm_keys (t : list perm_row) : list (string * string) :=
  map (fun r => (perm_viewer r, perm_sharer r)) t.

Definition permissions_unique (st : state) : Prop :=
  NoDup (perm_keys (permissions st)).

(** The number of grant rows of a pair. *)
Definition count_grants (t : list perm_row) (viewer sharer : string) : nat :=
  List.length (filter (perm_key viewer sharer) t).

(** A row of [otps] with this id exists, and no such row is unconsumed. *)
Definition spent (t : list otp_row) (id : Z) : Prop :=
  id <= fold_right Z.max 0 (map otp_id t)
  /\ forall r, In r t -> otp_id r = id -> otp_consumed r = 1.

(** The only writes to [otps]: an insertion by [POST /request-otp], a
    consumption by [POST /verify-otp]. *)
Inductive otps_step (t : list otp_row) : list otp_row -> Prop :=
| otps_same : otps_step t t
| otps_inserted email code expiresAt :
    email <> "" -> code <> "" ->
    otps_step t (insert_otp t email code expiresAt)
| otps_consumed id : otps_step t (consume_otp t id).

(** The user of [email] exists with the role [r]. *)
Definition has_role (t : list user_row) (email r : string) : Prop :=
  exists u, select_user t email = Some u /\ usr_role u = Some r.

(** The only write to [users]: the user part of [POST /verify-otp]. *)
Inductive users_step (t : list user_row) : list user_row -> Prop :=
| users_same : users_step t t
| users_upserted email role : users_step t (upsert_user email role t).

(** Every OTP row has an email and a code: [POST /request-otp] inserts only
    emails that pass the format check, with six digits. *)
Definition otps_wellformed (t : list otp_row) : Prop :=
  forall r, In r t -> otp_email r <> "" /\ otp_code r <> "".

(** The domain of the email has no MX record, or the resolver fails. *)
Definition no_mx_records (dns : resolver) (email : string) : Prop :=
  forall domain,
    nth_error (split "@" email) 1 = Some domain ->
    dns domain = None \/ dns domain = Some [].

(** No location row is stamped after the second of [now]. *)
Definition stamped_by (t : list loc_row) (now : Z) : Prop :=
  forall r, In r t -> loc_updatedAt r <= now / 1000.

(** The requests are handled at instants that do not decrease, from [now]
    on. *)
Fixpoint chronological (now : Z) (rqs : list (Z * request)) : Prop :=
  match rqs with
  | [] => True
  | (t, _) :: rest => now <= t /\ chronological t rest
  end.

Fixpoint last_instant (now : Z) (rqs : list (Z * request)) : Z :=
  match rqs with
  | [] => now
  | (t, _) :: rest => last_instant t rest
  end.

(** [jwt.sign] does not throw at [now]: the secret is configured. *)
Definition signs (cfg : config) (now : Z) : Prop :=
  forall p, jwt_sign cfg p (JWT_SECRET cfg) expiresIn_7d now <> None.

(** ** An instance to run the model on *)

(** A stand-in for [jsonwebtoken] without a signature: the token is the
    first letter of the role followed by the email.  Like the library, it
    throws without a secret. *)
Definition plain_tag (role : option string) : ascii :=
  match role with
  | Some "viewer" => "v"
  | Some "sharer" => "s"
  | _ => "n"
  end.

Definition plain_sign (p : claims) (secret : str_field) (ttl now : Z)
  : option string :=
  if truthy secret then Some (String (plain_tag (tok_role p)) (tok_email p))
  else None.

Definition plain_verify (token : string) (secret : str_field) (now : Z)
  : option claims :=
  if truthy secret then
    match token with
    | String "v" e => Some (mk_claims e (Some "viewer"))
    | String "s" e => Some (mk_claims e (Some "sharer"))
    | String "n" e => Some (mk_claims e None)
    | _ => None
    end
  else None.

Definition demo : config :=
  mk_config (Some "secret") 600 plain_sign plain_verify.

(** The same server started without [JWT_SECRET]. *)
Definition demo_unset : config := mk_config None 600 plain_sign plain_verify.

(** Every domain has one MX record; no domain resolves. *)
Definition dns_up : resolver := fun d => Some [mk_mx ("mx." ++ d)%string 10].

Definition dns_down : resolver := fun _ => None.

(** The digits drawn are all ones, all twos. *)
Definition ones : nat -> N := fun _ => 1%N.

Definition twos : nat -> N := fun _ => 2%N.

(** [s@x.com] has asked for a code at 1000 ms, and again at 2000 ms. *)
Definition st_issued : state :=
  snd (request_otp demo 1000 dns_up ones (MailInfo []) (Some "s@x.com")
         empty_state).

Definition st_reissued : state :=
  snd (request_otp demo 2000 dns_up twos (MailInfo []) (Some "s@x.com")
         st_issued).

(** The doubles 10, 20, 30 and 40. *)
Definition ten : number := NFinite false 5 1.

Definition twenty : number := NFinite false 5 2.

Definition thirty : number := NFinite false 15 1.

Definition forty : number := NFinite false 5 3.

(** The sharer [s@x.com] has posted (10, 20) at 6000 ms. *)
Definition st_located : state :=
  snd (post_location demo 6000 (Some "Bearer ss@x.com")
         [("lat", JNum ten); ("lng", JNum twenty)] empty_state).

(** Then the sharer has granted [v@y.com]. *)
Definition st_granted : state :=
  snd (grant_permission demo 7000 (Some "Bearer ss@x.com") (Some "v@y.com")
         st_located).

(** The scenario of the specification, up to the first fetch: the sharer
    and the viewer sign in, the sharer posts (10, 20). *)
Definition scenario : list (Z * request) :=
  [(1000, RequestOtp dns_up ones (MailInfo []) (Some "s@x.com"));
   (2000, VerifyOtp (Some "s@x.com") (Some "111111") (JStr "sharer"));
   (3000, RequestOtp dns_up twos (MailInfo []) (Some "v@y.com"));
   (4000, VerifyOtp (Some "v@y.com") (Some "222222") (JStr "viewer"));
   (5000, PostLocation (Some "Bearer ss@x.com")
            [("lat", JNum ten); ("lng", JNum twenty)])].

(** ** The language of a regular expression *)

(** The strings that a regular expression denotes; [Regex.test] decides
    membership. *)
Inductive matches : Regex.re -> string -> Prop :=
| matches_eps : matches Regex.Eps ""
| matches_class p c : p c = true -> matches (Regex.Class p) (String c "")
| matches_seq a b s t :
    matches a s -> matches b t -> matches (Regex.Seq a b) (s ++ t)
| matches_alt_l a b s : matches a s -> matches (Regex.Alt a b) s
| matches_alt_r a b s : matches b s -> matches (Regex.Alt a b) s
| matches_star_nil a : matches (Regex.Star a) ""
| matches_star_cons a s t :
    matches a s -> matches (Regex.Star a) t ->
    matches (Regex.Star a) (s ++ t).

(** Every code unit of [s] satisfies [p]. *)
Fixpoint all_chars (p : ascii -> bool) (s : string) : bool :=
  match s with
  | EmptyString => true
  | String c s' => p c && all_chars p s'
  end.

(** A non-empty run of [[^\s@]]. *)
Definition email_part (s : string) : Prop :=
  s <> "" /\ all_chars email_char s = true.

(** ['0'] to ['9'] *)
Definition is_digit (c : ascii) : bool :=
  let n := N_of_ascii c in ((48 <=? n) && (n <=? 57))%N.

(** ** Further invariants *)

(** The ids of [otps] are those of a primary key. *)
Definition otp_ids_unique (t : list otp_row) : Prop := NoDup (map otp_id t).

(** What an OTP row was issued with: everything but the [consumed] flag. *)
Definition otp_issued (r : otp_row) : Z * string * string * Z :=
  (otp_id r, otp_email r, otp_code r, otp_expiresAt r).

(** A request to [POST /verify-otp] for [email] with a code other than
    [code]. *)
Definition wrong_guess (email code : string) (rq : Z * request) : Prop :=
  match snd rq with
  | VerifyOtp e otp _ => e = Some email /\ or_empty otp <> code
  | _ => False
  end.

(** [UNIQUE(email)] on [users], every user verified, with one of the two
    roles. *)
Definition users_wellformed (t : list user_row) : Prop :=
  NoDup (map usr_email t)
  /\ forall u, In u t ->
       usr_is_verified u = 1
       /\ (usr_role u = Some "viewer" \/ usr_role u = Some "sharer").

(** [a] does not come after [b] in [ORDER BY updatedAt, id]. *)
Definition loc_le (a b : loc_row) : Prop :=
  loc_updatedAt a < loc_updatedAt b
  \/ (loc_updatedAt a = loc_updatedAt b /\ loc_id a <= loc_id b).

(** A string without a space. *)
Definition word (s : string) : bool :=
  all_chars (fun c => negb (Ascii.eqb c " ")) s.

(** ** The error codes *)

(** The reasons that the handlers answer, each with its status. *)
Definition error_table : list (string * Z) :=
  [("email_required", 400); ("invalid_email_format", 400);
   ("invalid_email_domain", 400); ("email_failed", 500);
   ("email_and_otp_required", 400); ("no_otp_requested", 400);
   ("otp_expired", 400); ("invalid_otp", 401);
   ("missing_token", 401); ("invalid_token", 401);
   ("only_sharers_can_post", 403); ("lat_and_lng_required", 400);
   ("only_viewers_can_fetch", 403); ("no_permission", 403);
   ("no_location_found", 404); ("only_sharers_can_grant", 403);
   ("viewer_email_required", 400)].

(** [getFriendlyError] of the front end: the [switch] compares the code
    with each case in turn; the default is [errorCode || "An error
    occurred."].  The code is a string or absent.  The messages are the
    bytes of the source file and are not inspected. *)
Definition getFriendlyError (errorCode : str_field) : string :=
  let code := or_empty errorCode in
  if String.eqb code "invalid_email_format"
  then "❌ That email looks invalid. Please check the format."
  else if String.eqb code "invalid_email_domain"
  then "❌ This email domain cannot receive emails."
  else if String.eqb code "email_required"
  then "❌ Please enter an email."
  else if String.eqb code "email_failed"
  then "❌ Failed to send OTP. Try again later."
  else if String.eqb code "no_otp_requested"
  then "⚠️ You didn’t request an OTP yet."
  else if String.eqb code "otp_expired"
  then "⏰ OTP expired. Please request a new one."
  else if String.eqb code "invalid_otp"
  then "❌ The OTP you entered is wrong."
  else if String.eqb code "email_and_otp_required"
  then "❌ Both email and OTP are required."
  else if String.eqb code "viewer_email_required"
  then "❌ You must enter a viewer email."
  else if String.eqb code "no_permission"
  then "⚠️ You don’t have permission to view this sharer’s location."
  else if String.eqb code "no_location_found"
  then "⚠️ No location available for this sharer yet."
  else if truthy errorCode then code else "An error occurred.".

(** The codes of the handlers for which the front end has no message. *)
Definition shown_raw : list string :=
  ["missing_token"; "invalid_token"; "only_sharers_can_post";
   "lat_and_lng_required"; "only_viewers_can_fetch";
   "only_sharers_can_grant"].

(** What a handler answers: a success with status 200, a reason of the
    table with its status, or the 500 of Express for an exception that
    escaped. *)
Definition answer_ok (r : response) : Prop :=
  match body r with
  | RError reason => In (reason, status r) error_table
  | RUncaught => status r = 500
  | _ => status r = 200
  end.

(** An OTP row as [POST /request-otp] writes it and [POST /verify-otp]
    rewrites it. *)
Definition otp_row_ok (r : otp_row) : Prop :=
  isValidEmailFormat (otp_email r) = true
  /\ String.length (otp_code r) = 6%nat
  /\ all_chars is_digit (otp_code r) = true
  /\ (otp_consumed r = 0 \/ otp_consumed r = 1).

(** The tables that a request may write. *)
Definition writes_only (rq : request) (st st' : state) : Prop :=
  match rq with
  | RequestOtp _ _ _ _ =>
      users st' = users st /\ locations st' = locations st
      /\ permissions st' = permissions st
  | VerifyOtp _ _ _ =>
      locations st' = locations st /\ permissions st' = permissions st
      /\ outbox st' = outbox st
  | PostLocation _ _ =>
      otps st' = otps st /\ users st' = users st
      /\ permissions st' = permissions st /\ outbox st' = outbox st
  | GetLocation _ _ => st' = st
  | GrantPermission _ _ =>
      otps st' = otps st /\ users st' = users st
      /\ locations st' = locations st /\ outbox st' = outbox st
  end.

(** * Properties *)

(** ** The queries *)

Section TopBy.

Context {A : Type} (lt : A -> A -> bool).

Lemma keep_top_fold_some (rows : list A) (acc : option A) :
  acc <> None -> fold_left (keep_top lt) rows acc <> None.
Proof.
  revert acc.
  induction rows as [|r rows IH]; intros acc Hacc; simpl; auto.
  apply IH. destruct acc as [b|]; simpl; [destruct (lt b r)|]; discriminate.
Qed.

Lemma keep_top_fold_In (rows : list A) (acc : option A) (x : A) :
  fold_left (keep_top lt) rows acc = Some x -> In x rows \/ acc = Some x.
Proof.
  revert acc.
  induction rows as [|r rows IH]; intros acc H; simpl in *; auto.
  destruct (IH _ H) as [Hin|Hacc]; auto.
  destruct acc as [b|]; simpl in Hacc.
  - destruct (lt b r); inversion Hacc; subst; auto.
  - inversion Hacc; auto.
Qed.

Lemma top_by_In (rows : list A) (x : A) :
  top_by lt rows = Some x -> In x rows.
Proof.
  intros H. destruct (keep_top_fold_In _ _ _ H) as [Hin|Hn]; [trivial|discriminate].
Qed.

Lemma top_by_none (rows : list A) : top_by lt rows = None -> rows = [].
Proof.
  destruct rows as [|r rows]; trivial.
  unfold top_by; simpl. intros H.
  exfalso. revert H. apply keep_top_fold_some. discriminate.
Qed.

(** A row that beats all the rows before it is the one selected. *)
Lemma top_by_last (rows : list A) (x : A) :
  (forall y, In y rows -> lt y x = true) ->
  top_by lt (rows ++ [x]) = Some x.
Proof.
  intros Hall. unfold top_by. rewrite fold_left_app. simpl.
  destruct (fold_left (keep_top lt) rows None) as [b|] eqn:E; simpl; trivial.
  apply top_by_In in E. now rewrite (Hall b E).
Qed.

End TopBy.

Lemma max_id_ge (ids : list Z) (i : Z) :
  In i ids -> i <= fold_right Z.max 0 ids.
Proof.
  induction ids as [|j ids IH]; simpl; [tauto|].
  intros [->|Hin]; [|specialize (IH Hin)]; lia.
Qed.

Lemma max_id_app (ids : list Z) (i : Z) :
  fold_right Z.max 0 ids <= fold_right Z.max 0 (ids ++ [i]).
Proof.
  induction ids as [|j ids IH]; simpl; lia.
Qed.

Lemma next_id_fresh (ids : list Z) (i : Z) : In i ids -> i < next_id ids.
Proof.
  intros H. apply max_id_ge in H. unfold next_id. lia.
Qed.

Lemma select_otp_pending (t : list otp_row) (email : string) (r : otp_row) :
  select_otp t email = Some r ->
  In r t /\ otp_email r = email /\ otp_consumed r = 0.
Proof.
  unfold select_otp. intros H.
  apply top_by_In, filter_In in H. destruct H as [Hin Hp].
  unfold otp_pending in Hp. apply andb_true_iff in Hp. destruct Hp as [He Hc].
  apply String.eqb_eq in He. apply Z.eqb_eq in Hc. auto.
Qed.

Lemma consume_id (id : Z) (r : otp_row) : otp_id (consume id r) = otp_id r.
Proof. unfold consume. now destruct (otp_id r =? id). Qed.

Lemma consume_otp_ids (t : list otp_row) (id : Z) :
  map otp_id (consume_otp t id) = map otp_id t.
Proof.
  unfold consume_otp. rewrite map_map. apply map_ext, consume_id.
Qed.

(** ** Shape of the handlers' results *)

(** What [POST /verify-otp] has done when it answers 200. *)
Lemma verify_otp_success (cfg : config) (now : Z) (email otp : str_field)
  (role : jsval) (st st' : state) (resp : response) :
  verify_otp cfg now email otp role st = (resp, st') ->
  status resp = 200 ->
  exists record user,
    truthy email = true /\ truthy otp = true
    /\ select_otp (otps st) (or_empty email) = Some record
    /\ now <= otp_expiresAt record
    /\ otp_code record = or_empty otp
    /\ st' = set_users
               (set_otps st (consume_otp (otps st) (otp_id record)))
               (upsert_user (or_empty email) role (users st))
    /\ select_user (users st') (or_empty email) = Some user
    /\ exists token,
         signToken cfg now user = Some token
         /\ resp = ok (RVerified token (or_empty email) (usr_role user)).
Proof.
  unfold verify_otp. intros H Hs.
  destruct (truthy email) eqn:Ee; simpl in H;
    [|inversion H; subst; discriminate].
  destruct (truthy otp) eqn:Eo; simpl in H;
    [|inversion H; subst; discriminate].
  destruct (select_otp (otps st) (or_empty email)) as [record|] eqn:Er;
    [|inversion H; subst; discriminate].
  destruct (otp_expiresAt record <? now) eqn:Ex;
    [inversion H; subst; discriminate|].
  destruct (String.eqb (or_empty otp) (otp_code record)) eqn:Ec; simpl in H;
    [|inversion H; subst; discriminate].
  match type of H with
  | match ?s with _ => _ end = _ => destruct s as [user|] eqn:Eu
  end; [|inversion H; subst; discriminate].
  destruct (signToken cfg now user) as [token|] eqn:Et;
    inversion H; subst; [|discriminate].
  exists record, user. apply Z.ltb_ge in Ex. apply String.eqb_eq in Ec.
  repeat split; eauto.
Qed.

Lemma truthy_nonempty (v : str_field) : truthy v = true -> or_empty v <> "".
Proof. destruct v as [[|c s]|]; simpl; discriminate. Qed.

Lemma request_otp_otps (cfg : config) (now : Z) (dns : resolver)
  (rnd : nat -> N) (mail : mail_outcome) (email : str_field) (st : state) :
  otps_step (otps st) (otps (snd (request_otp cfg now dns rnd mail email st))).
Proof.
  unfold request_otp.
  destruct (truthy email) eqn:He; simpl; [|constructor].
  destruct (isValidEmailFormat _); simpl; [|constructor].
  destruct (domainHasMX _ _); simpl; [|constructor].
  destruct (delivered mail); simpl; constructor;
    solve [discriminate | now apply truthy_nonempty].
Qed.

Lemma verify_otp_otps (cfg : config) (now : Z) (email otp : str_field)
  (role : jsval) (st : state) :
  otps_step (otps st) (otps (snd (verify_otp cfg now email otp role st))).
Proof.
  unfold verify_otp.
  destruct (negb (truthy email) || negb (truthy otp)); simpl; [constructor|].
  destruct (select_otp _ _) as [record|]; simpl; [|constructor].
  destruct (otp_expiresAt record <? now); simpl; [constructor|].
  destruct (negb _); simpl; [constructor|].
  destruct (select_user _ _) as [u|]; simpl; [|constructor].
  destruct (signToken _ _ _); simpl; constructor.
Qed.

Lemma post_location_otps (cfg : config) (now : Z) (a : str_field)
  (b : json_body) (st : state) :
  otps (snd (post_location cfg now a b st)) = otps st.
Proof.
  unfold post_location.
  destruct (authMiddleware cfg now a) as [r|user]; simpl; trivial.
  destruct (negb _); simpl; trivial.
  destruct (typeof_number _); simpl; trivial.
  destruct (typeof_number _); simpl; trivial.
Qed.

Lemma get_location_state (cfg : config) (now : Z) (a : str_field)
  (e : string) (st : state) :
  snd (get_location cfg now a e st) = st.
Proof.
  unfold get_location.
  destruct (authMiddleware cfg now a) as [r|user]; simpl; trivial.
  destruct (negb _); simpl; trivial.
  destruct (negb _); simpl; trivial.
  destruct (select_latest _ _); simpl; trivial.
Qed.

Lemma grant_permission_otps (cfg : config) (now : Z) (a v : str_field)
  (st : state) :
  otps (snd (grant_permission cfg now a v st)) = otps st.
Proof.
  unfold grant_permission.
  destruct (authMiddleware cfg now a) as [r|user]; simpl; trivial.
  destruct (negb _); simpl; trivial.
  destruct (negb _); simpl; trivial.
Qed.

Lemma handle_otps (cfg : config) (now : Z) (rq : request) (st : state) :
  otps_step (otps st) (otps (snd (handle cfg now rq st))).
Proof.
  destruct rq; simpl.
  - apply request_otp_otps.
  - apply verify_otp_otps.
  - rewrite post_location_otps. constructor.
  - rewrite get_location_state. constructor.
  - rewrite grant_permission_otps. constructor.
Qed.

(** ** A consumed OTP stays consumed *)

Lemma spent_consume (t : list otp_row) (id i : Z) :
  spent t i -> spent (consume_otp t id) i.
Proof.
  intros [Hmax Hall]. split.
  - now rewrite consume_otp_ids.
  - intros r' Hin Hid. unfold consume_otp in Hin.
    apply in_map_iff in Hin. destruct Hin as [r [<- Hin]].
    rewrite consume_id in Hid. unfold consume.
    destruct (otp_id r =? id); simpl; auto.
Qed.

Lemma spent_insert (t : list otp_row) (email code : string) (x i : Z) :
  spent t i -> spent (insert_otp t email code x) i.
Proof.
  intros [Hmax Hall]. unfold insert_otp. split.
  - rewrite map_app. simpl.
    pose proof (max_id_app (map otp_id t) (next_id (map otp_id t))). lia.
  - intros r Hin Hid. apply in_app_or in Hin. destruct Hin as [Hin|[<-|[]]].
    + auto.
    + simpl in Hid. unfold next_id in Hid. lia.
Qed.

Lemma spent_step (t t' : list otp_row) (i : Z) :
  otps_step t t' -> spent t i -> spent t' i.
Proof.
  intros [|? ? ? _ _|]; auto using spent_insert, spent_consume.
Qed.

Lemma spent_run (cfg : config) (rqs : list (Z * request)) (st : state) (i : Z) :
  spent (otps st) i -> spent (otps (run cfg rqs st)) i.
Proof.
  revert st.
  induction rqs as [|[now rq] rqs IH]; intros st H; simpl; trivial.
  apply IH. eapply spent_step; [apply handle_otps|trivial].
Qed.

Lemma consume_otp_spent (t : list otp_row) (r : otp_row) :
  In r t -> spent (consume_otp t (otp_id r)) (otp_id r).
Proof.
  intros Hin. split.
  - rewrite consume_otp_ids. apply max_id_ge, in_map, Hin.
  - intros r' Hin' Hid. unfold consume_otp in Hin'.
    apply in_map_iff in Hin'. destruct Hin' as [r0 [<- Hin0]].
    rewrite consume_id in Hid. unfold consume.
    rewrite Hid, Z.eqb_refl. reflexivity.
Qed.

(** A spent record is never the one that the lookup of [POST /verify-otp]
    returns. *)
Lemma spent_not_selected (t : list otp_row) (i : Z) (email : string)
  (r : otp_row) :
  spent t i -> select_otp t email = Some r -> otp_id r <> i.
Proof.
  intros [_ Hall] Hsel Hid.
  apply select_otp_pending in Hsel. destruct Hsel as [Hin [_ Hc]].
  rewrite (Hall r Hin Hid) in Hc. discriminate.
Qed.

(** C1.  An OTP is usable at most once.  When [POST /verify-otp] answers
    200, the record it looked up is in the table with [consumed = 1]; after
    any further requests, a [POST /verify-otp] that answers 200 has looked up
    a record with another id; and when the email had no other unconsumed
    record, the same call again answers [no_otp_requested]. *)
Theorem otp_used_at_most_once (cfg : config) (now : Z) (email otp : str_field)
  (role : jsval) (st st' : state) (resp : response) :
  verify_otp cfg now email otp role st = (resp, st') ->
  status resp = 200 ->
  exists record,
    select_otp (otps st) (or_empty email) = Some record
    /\ In (mk_otp (otp_id record) (otp_email record) (otp_code record)
             (otp_expiresAt record) 1) (otps st')
    /\ (forall r, In r (otps st') -> otp_id r = otp_id record ->
         otp_consumed r = 1)
    /\ (forall rqs now2 email2 otp2 role2,
         status (fst (verify_otp cfg now2 email2 otp2 role2
                        (run cfg rqs st'))) = 200 ->
         exists other,
           select_otp (otps (run cfg rqs st')) (or_empty email2) = Some other
           /\ otp_id other <> otp_id record)
    /\ ((forall r, In r (otps st) -> otp_pending (or_empty email) r = true ->
          otp_id r = otp_id record) ->
        forall now2 role2,
          verify_otp cfg now2 email otp role2 st'
          = (error 400 "no_otp_requested", st')).
Proof.
  intros H Hs.
  destruct (verify_otp_success _ _ _ _ _ _ _ _ H Hs)
    as (record & user & He & Ho & Hsel & _ & _ & Hst & _ & _).
  exists record.
  pose proof (select_otp_pending _ _ _ Hsel) as (Hin & Hem & Hc).
  assert (Hspent : spent (otps st') (otp_id record)).
  { subst st'. simpl. now apply consume_otp_spent. }
  split; [trivial|]. split; [|split; [|split]].
  - subst st'. simpl. unfold consume_otp.
    apply in_map_iff. exists record. split; trivial.
    unfold consume. now rewrite Z.eqb_refl.
  - apply Hspent.
  - intros rqs now2 email2 otp2 role2 H2.
    destruct (verify_otp cfg now2 email2 otp2 role2 (run cfg rqs st'))
      as [resp2 st2] eqn:E2.
    destruct (verify_otp_success _ _ _ _ _ _ _ _ E2 H2)
      as (other & _ & _ & _ & Hsel2 & _).
    exists other. split; trivial.
    eapply spent_not_selected; [|exact Hsel2].
    now apply spent_run.
  - intros Honly now2 role2. unfold verify_otp.
    rewrite He, Ho. simpl.
    destruct (select_otp (otps st') (or_empty email)) as [r'|] eqn:E';
      trivial.
    exfalso.
    pose proof (spent_not_selected _ _ _ _ Hspent E') as Hne.
    apply select_otp_pending in E'. destruct E' as (Hin' & Hem' & Hc').
    subst st'. simpl in Hin'. unfold consume_otp in Hin'.
    apply in_map_iff in Hin'. destruct Hin' as (r0 & Hr0 & Hin0).
    apply Hne. rewrite <- Hr0, consume_id. apply Honly; trivial.
    unfold consume in Hr0.
    destruct (otp_id r0 =? otp_id record) eqn:E0.
    + subst r'. simpl in Hc'. discriminate.
    + subst r'. unfold otp_pending.
      rewrite Hem', Hc', String.eqb_refl. reflexivity.
Qed.

Lemma otp_used_at_most_once_witness :
  verify_otp demo 4000 (Some "s@x.com") (Some "111111") (JStr "sharer")
    (snd (verify_otp demo 3000 (Some "s@x.com") (Some "111111")
            (JStr "sharer") st_issued))
  = (error 400 "no_otp_requested",
     snd (verify_otp demo 3000 (Some "s@x.com") (Some "111111")
            (JStr "sharer") st_issued)).
Proof.
  destruct (otp_used_at_most_once demo 3000 (Some "s@x.com") (Some "111111")
              (JStr "sharer") st_issued _ _ eq_refl eq_refl)
    as (record & Hsel & _ & _ & _ & Hagain).
  apply Hagain.
  vm_compute in Hsel. inversion Hsel; subst record.
  intros r [<-|[]] _. reflexivity.
Defined.

(** ** The users table *)

Lemma select_user_app_none (t : list user_row) (u : user_row) (email : string) :
  select_user t email = None ->
  select_user (t ++ [u]) email
  = if String.eqb (usr_email u) email then Some u else None.
Proof.
  unfold select_user.
  induction t as [|v t IH]; simpl; trivial.
  destruct (String.eqb (usr_email v) email); [discriminate|trivial].
Qed.

Lemma select_user_app_some (t : list user_row) (u v : user_row)
  (email : string) :
  select_user t email = Some v -> select_user (t ++ [u]) email = Some v.
Proof.
  unfold select_user.
  induction t as [|w t IH]; simpl; [discriminate|].
  destruct (String.eqb (usr_email w) email); trivial.
Qed.

(** An [UPDATE users ... WHERE email = ?] that leaves the emails alone, seen
    from [SELECT * FROM users WHERE email = ?]. *)
Lemma select_user_update (f : user_row -> user_row) (e e' : string)
  (t : list user_row) :
  (forall u, usr_email (f u) = usr_email u) ->
  select_user (update_users f e t) e'
  = option_map (fun u => if String.eqb (usr_email u) e then f u else u)
      (select_user t e').
Proof.
  intros Hf. unfold select_user, update_users.
  induction t as [|u t IH]; simpl; trivial.
  destruct (String.eqb (usr_email u) e) eqn:E; [rewrite Hf|];
    destruct (String.eqb (usr_email u) e') eqn:E'; simpl; trivial.
  all: now rewrite E.
Qed.

Lemma select_user_email (t : list user_row) (email : string) (u : user_row) :
  select_user t email = Some u -> usr_email u = email.
Proof.
  unfold select_user. intros H. apply find_some in H.
  now apply String.eqb_eq.
Qed.

(** The first verification creates the row, verified, with [finalRole]. *)
Lemma upsert_user_creates (email : string) (role : jsval) (t : list user_row) :
  select_user t email = None ->
  select_user (upsert_user email role t) email
  = Some (mk_user email 1 (Some (finalRole role))).
Proof.
  intros H. unfold upsert_user. rewrite H. unfold insert_user.
  rewrite select_user_app_none by trivial. simpl.
  now rewrite String.eqb_refl.
Qed.

(** A later verification leaves a role that is set as it is. *)
Lemma upsert_user_keeps_role (email : string) (role : jsval)
  (t : list user_row) (u : user_row) :
  select_user t email = Some u ->
  truthy (usr_role u) = true ->
  exists u',
    select_user (upsert_user email role t) email = Some u'
    /\ usr_email u' = email /\ usr_role u' = usr_role u.
Proof.
  intros H Hr. unfold upsert_user. rewrite H, Hr. simpl.
  pose proof (select_user_email _ _ _ H) as He.
  destruct (usr_is_verified u =? 0).
  - rewrite select_user_update by reflexivity. rewrite H. simpl.
    rewrite He, String.eqb_refl. eexists; repeat split. simpl. exact He.
  - exists u. auto.
Qed.

(** The row of another email is out of reach of a verification. *)
Lemma upsert_user_other (email email' : string) (role : jsval)
  (t : list user_row) (u : user_row) :
  email' <> email ->
  select_user t email' = Some u ->
  select_user (upsert_user email role t) email' = Some u.
Proof.
  intros Hne H. unfold upsert_user.
  pose proof (select_user_email _ _ _ H) as He.
  assert (Hneq : String.eqb (usr_email u) email = false).
  { apply String.eqb_neq. congruence. }
  destruct (select_user t email) as [v|] eqn:Ev.
  - assert (H1 : select_user
                   (if usr_is_verified v =? 0
                    then update_users set_verified email t else t) email'
                 = Some u).
    { destruct (usr_is_verified v =? 0); trivial.
      rewrite select_user_update by reflexivity. rewrite H. simpl.
      now rewrite Hneq. }
    destruct (negb (truthy (usr_role v))); trivial.
    rewrite select_user_update by reflexivity. rewrite H1. simpl.
    now rewrite Hneq.
  - unfold insert_user. now apply select_user_app_some.
Qed.

Lemma upsert_user_selects (email : string) (role : jsval) (t : list user_row) :
  exists u, select_user (upsert_user email role t) email = Some u.
Proof.
  destruct (select_user t email) as [u|] eqn:E.
  - unfold upsert_user. rewrite E.
    pose proof (select_user_email _ _ _ E) as He.
    assert (H1 : exists v,
               select_user
                 (if usr_is_verified u =? 0
                  then update_users set_verified email t else t) email
               = Some v).
    { destruct (usr_is_verified u =? 0); [|eauto].
      rewrite select_user_update by reflexivity. rewrite E. simpl. eauto. }
    destruct H1 as [v Hv].
    destruct (negb (truthy (usr_role u))); [|eauto].
    rewrite select_user_update by reflexivity. rewrite Hv. simpl. eauto.
  - rewrite upsert_user_creates by trivial. eauto.
Qed.

(** [POST /verify-otp] consumes the record and writes the user when the
    newest unconsumed record of the email has not expired and carries the
    code; it answers 200 when [jwt.sign] does not throw. *)
Lemma verify_otp_accepts (cfg : config) (now : Z) (email otp : str_field)
  (role : jsval) (st : state) (record : otp_row) :
  truthy email = true -> truthy otp = true ->
  select_otp (otps st) (or_empty email) = Some record ->
  now <= otp_expiresAt record ->
  or_empty otp = otp_code record ->
  exists user,
    select_user (upsert_user (or_empty email) role (users st)) (or_empty email)
    = Some user
    /\ verify_otp cfg now email otp role st
       = (match signToken cfg now user with
          | Some token =>
              ok (RVerified token (or_empty email) (usr_role user))
          | None => uncaught
          end,
          set_users (set_otps st (consume_otp (otps st) (otp_id record)))
            (upsert_user (or_empty email) role (users st))).
Proof.
  intros He Ho Hsel Hexp Hcode.
  destruct (upsert_user_selects (or_empty email) role (users st)) as [u Hu].
  exists u. split; trivial.
  unfold verify_otp. rewrite He, Ho, Hsel. simpl.
  apply Z.ltb_ge in Hexp. rewrite Hexp, Hcode, String.eqb_refl. simpl.
  rewrite Hu. now destruct (signToken cfg now u).
Qed.

(** The same, with the answer, when [jwt.sign] does not throw. *)
Lemma verify_otp_accepts_200 (cfg : config) (now : Z) (email otp : str_field)
  (role : jsval) (st : state) (record : otp_row) :
  signs cfg now ->
  truthy email = true -> truthy otp = true ->
  select_otp (otps st) (or_empty email) = Some record ->
  now <= otp_expiresAt record ->
  or_empty otp = otp_code record ->
  status (fst (verify_otp cfg now email otp role st)) = 200
  /\ snd (verify_otp cfg now email otp role st)
     = set_users (set_otps st (consume_otp (otps st) (otp_id record)))
         (upsert_user (or_empty email) role (users st)).
Proof.
  intros Hsign He Ho Hsel Hexp Hcode.
  destruct (verify_otp_accepts cfg now email otp role st record
              He Ho Hsel Hexp Hcode) as (u & _ & ->).
  split; [|reflexivity]. simpl. unfold signToken.
  destruct (jwt_sign cfg _ _ _ _) eqn:E; [reflexivity|].
  now apply Hsign in E.
Qed.

(** ** Issuing again *)

Lemma generateOtp_truthy (rnd : nat -> N) :
  truthy (Some (generateOtp 6 rnd)) = true.
Proof. reflexivity. Qed.

(** The record just inserted is the one that the lookup returns. *)
Lemma select_otp_inserted (t : list otp_row) (email code : string) (x : Z) :
  select_otp (insert_otp t email code x) email
  = Some (mk_otp (next_id (map otp_id t)) email code x 0).
Proof.
  unfold select_otp, insert_otp. rewrite filter_app. simpl.
  unfold otp_pending at 2. simpl. rewrite String.eqb_refl. simpl.
  apply top_by_last. intros y Hy. apply filter_In in Hy.
  unfold otp_older. simpl. apply Z.ltb_lt, next_id_fresh, in_map, Hy.
Qed.

Lemma consume_otp_absent (t : list otp_row) (id : Z) :
  (forall r, In r t -> otp_id r <> id) -> consume_otp t id = t.
Proof.
  intros H. unfold consume_otp. rewrite <- (map_id t) at 2.
  apply map_ext_in. intros r Hin. unfold consume.
  destruct (otp_id r =? id) eqn:E; trivial.
  apply Z.eqb_eq in E. now apply H in Hin.
Qed.

(** Once the newer of two records has been consumed, the older one is the
    one that the lookup returns. *)
Lemma select_otp_after_newer (t : list otp_row) (email c1 c2 : string)
  (x1 x2 : Z) :
  let t1 := insert_otp t email c1 x1 in
  let t2 := insert_otp t1 email c2 x2 in
  select_otp (consume_otp t2 (next_id (map otp_id t1))) email
  = Some (mk_otp (next_id (map otp_id t)) email c1 x1 0).
Proof.
  intros t1 t2. unfold t2, insert_otp at 1, consume_otp.
  rewrite map_app. fold (consume_otp t1 (next_id (map otp_id t1))).
  rewrite consume_otp_absent.
  - simpl. unfold consume at 1. simpl. rewrite Z.eqb_refl.
    unfold select_otp. rewrite filter_app. simpl.
    unfold otp_pending at 2. simpl. rewrite andb_false_r.
    rewrite app_nil_r. apply (select_otp_inserted t email c1 x1).
  - intros r Hin Hid.
    apply (in_map otp_id), next_id_fresh in Hin. lia.
Qed.

Lemma request_otp_issues (cfg : config) (now : Z) (dns : resolver)
  (rnd : nat -> N) (mail : mail_outcome) (email : str_field) (st : state) :
  truthy email = true ->
  isValidEmailFormat (or_empty email) = true ->
  domainHasMX dns (or_empty email) = true ->
  otps (snd (request_otp cfg now dns rnd mail email st))
  = insert_otp (otps st) (or_empty email) (generateOtp 6 rnd)
      (now + OTP_TTL cfg * 1000).
Proof.
  intros He Hf Hmx. unfold request_otp. rewrite He, Hf, Hmx. simpl.
  now destruct (delivered mail).
Qed.

(** The lookup returns the unconsumed record of the email with the largest
    id. *)
Lemma keep_top_fold_newest (rows : list otp_row) (acc : option otp_row)
  (x : otp_row) :
  fold_left (keep_top otp_older) rows acc = Some x ->
  (forall y, In y rows -> otp_id y <= otp_id x)
  /\ (forall b, acc = Some b -> otp_id b <= otp_id x).
Proof.
  revert acc.
  induction rows as [|r rows IH]; simpl; intros acc H.
  - split; [intros y []|]. intros b Hb. rewrite Hb in H.
    inversion H. lia.
  - destruct (IH _ H) as [Hrows Hacc]. split.
    + intros y [Hy|Hy]; [subst y|auto].
      destruct acc as [b|]; simpl in Hacc.
      * destruct (otp_older b r) eqn:E.
        -- specialize (Hacc r eq_refl). lia.
        -- specialize (Hacc b eq_refl). unfold otp_older in E.
           apply Z.ltb_ge in E. lia.
      * specialize (Hacc r eq_refl). lia.
    + intros b ->. simpl in Hacc.
      destruct (otp_older b r) eqn:E.
      * specialize (Hacc r eq_refl). unfold otp_older in E.
        apply Z.ltb_lt in E. lia.
      * now apply Hacc.
Qed.

Lemma select_otp_newest (t : list otp_row) (email : string) (r y : otp_row) :
  select_otp t email = Some r ->
  In y t -> otp_pending email y = true -> otp_id y <= otp_id r.
Proof.
  intros H Hin Hp. apply keep_top_fold_newest in H.
  destruct H as [H _]. apply H, filter_In. auto.
Qed.

(** X21.  While a newer record of the email is unconsumed, no call of
    [POST /verify-otp] consumes the older one. *)
Lemma older_record_outlives_call (cfg : config) (now : Z) (email : string)
  (otp : str_field) (role : jsval) (st : state) (older newer : otp_row) :
  In older (otps st) -> In newer (otps st) ->
  otp_pending email newer = true ->
  otp_id older < otp_id newer ->
  In older (otps (snd (verify_otp cfg now (Some email) otp role st))).
Proof.
  intros Ho Hn Hpn Hlt. unfold verify_otp. cbn [or_empty].
  destruct (negb (truthy (Some email)) || negb (truthy otp)); simpl; trivial.
  destruct (select_otp (otps st) email) as [record|] eqn:Hsel; simpl; trivial.
  destruct (otp_expiresAt record <? now); simpl; trivial.
  destruct (negb _); simpl; trivial.
  assert (Hkeep : In older (consume_otp (otps st) (otp_id record))).
  { pose proof (select_otp_newest _ _ _ _ Hsel Hn Hpn) as Hle.
    unfold consume_otp. apply in_map_iff. exists older. split; trivial.
    unfold consume. destruct (otp_id older =? otp_id record) eqn:E; trivial.
    apply Z.eqb_eq in E. lia. }
  destruct (select_user _ _) as [u|]; simpl; [|exact Hkeep].
  destruct (signToken _ _ _); simpl; exact Hkeep.
Qed.


Lemma signs_demo (now : Z) : signs demo now.
Proof. intros p. discriminate. Qed.


(** X25.  After an issuance and a retry for the same email with a different
    code, both records are unconsumed; while both are unexpired,
    [POST /verify-otp] with the older code answers [invalid_otp] and changes
    nothing; when [jwt.sign] does not throw, it answers 200 for the newer
    code, and after that 200 for the older code, until the older record
    expires. *)
Theorem superseded_otp_waits_for_newer (cfg : config) (st : state)
  (email : str_field) (t1 t2 now : Z) (dns1 dns2 : resolver)
  (rnd1 rnd2 : nat -> N) (mail1 mail2 : mail_outcome) (role : jsval) :
  let st1 := snd (request_otp cfg t1 dns1 rnd1 mail1 email st) in
  let st2 := snd (request_otp cfg t2 dns2 rnd2 mail2 email st1) in
  let older := generateOtp 6 rnd1 in
  let newer := generateOtp 6 rnd2 in
  truthy email = true ->
  isValidEmailFormat (or_empty email) = true ->
  domainHasMX dns1 (or_empty email) = true ->
  domainHasMX dns2 (or_empty email) = true ->
  older <> newer ->
  now <= t1 + OTP_TTL cfg * 1000 ->
  now <= t2 + OTP_TTL cfg * 1000 ->
  otps st2
  = (otps st
     ++ [mk_otp (next_id (map otp_id (otps st))) (or_empty email) older
           (t1 + OTP_TTL cfg * 1000) 0;
         mk_otp (next_id (map otp_id (otps st1))) (or_empty email) newer
           (t2 + OTP_TTL cfg * 1000) 0])%list
  /\ verify_otp cfg now email (Some older) role st2
     = (error 401 "invalid_otp", st2)
  /\ (signs cfg now ->
      status (fst (verify_otp cfg now email (Some newer) role st2)) = 200)
  /\ forall now' role',
       now' <= t1 + OTP_TTL cfg * 1000 ->
       signs cfg now' ->
       status (fst (verify_otp cfg now' email (Some older) role'
                      (snd (verify_otp cfg now email (Some newer) role st2))))
       = 200.
Proof.
  intros st1 st2 older newer He Hf Hmx1 Hmx2 Hne Hx1 Hx2.
  assert (E1 : otps st1 = insert_otp (otps st) (or_empty email) older
                            (t1 + OTP_TTL cfg * 1000)).
  { apply request_otp_issues; trivial. }
  assert (E2 : otps st2 = insert_otp (otps st1) (or_empty email) newer
                            (t2 + OTP_TTL cfg * 1000)).
  { apply request_otp_issues; trivial. }
  assert (Hsel : select_otp (otps st2) (or_empty email)
                 = Some (mk_otp (next_id (map otp_id (otps st1)))
                           (or_empty email) newer
                           (t2 + OTP_TTL cfg * 1000) 0)).
  { rewrite E2. apply select_otp_inserted. }
  split; [|split; [|split]].
  - rewrite E2. unfold insert_otp at 1. rewrite E1 at 1.
    unfold insert_otp at 1. now rewrite <- app_assoc.
  - unfold verify_otp. rewrite He, Hsel.
    cbn [truthy negb orb or_empty otp_expiresAt otp_code].
    apply Z.ltb_ge in Hx2. rewrite Hx2.
    apply String.eqb_neq in Hne. now rewrite Hne.
  - intros Hsign.
    apply (verify_otp_accepts_200 cfg now email (Some newer) role st2 _
             Hsign He (generateOtp_truthy rnd2) Hsel Hx2 eq_refl).
  - intros now' role' Hx1' Hsign'.
    destruct (verify_otp_accepts cfg now email (Some newer) role st2 _
                He (generateOtp_truthy rnd2) Hsel Hx2 eq_refl)
      as (u & _ & ->).
    simpl snd.
    match goal with
    | |- context [verify_otp _ _ _ _ _ ?s] => set (st3 := s)
    end.
    assert (Hsel3 : select_otp (otps st3) (or_empty email)
                    = Some (mk_otp (next_id (map otp_id (otps st)))
                              (or_empty email) older
                              (t1 + OTP_TTL cfg * 1000) 0)).
    { unfold st3. simpl. rewrite E2, E1. apply select_otp_after_newer. }
    apply (verify_otp_accepts_200 cfg now' email (Some older) role' st3 _
             Hsign' He (generateOtp_truthy rnd1) Hsel3 Hx1' eq_refl).
Qed.

Lemma superseded_otp_waits_for_newer_witness :
  verify_otp demo 3000 (Some "s@x.com") (Some "111111") (JStr "sharer")
    st_reissued
  = (error 401 "invalid_otp", st_reissued)
  /\ status (fst (verify_otp demo 5000 (Some "s@x.com") (Some "111111")
                    (JStr "sharer")
                    (snd (verify_otp demo 3000 (Some "s@x.com")
                            (Some "222222") (JStr "sharer") st_reissued))))
     = 200.
Proof.
  destruct (superseded_otp_waits_for_newer demo empty_state (Some "s@x.com")
              1000 2000 3000 dns_up dns_up ones twos (MailInfo [])
              (MailInfo []) (JStr "sharer"))
    as (_ & Hold & _ & Hlater);
    try reflexivity; try discriminate.
  split; [exact Hold|].
  apply (Hlater 5000 (JStr "sharer")); [discriminate|apply signs_demo].
Defined.

(** With two unconsumed, unexpired records for [s@x.com], the older with
    code 111111 and the newer with code 222222, [POST /verify-otp] with the
    older code answers [invalid_otp] and consumes nothing. *)
Example older_code_rejected_while_newer_pending :
  otps st_reissued
  = [mk_otp 1 "s@x.com" "111111" 601000 0;
     mk_otp 2 "s@x.com" "222222" 602000 0]
  /\ verify_otp demo 3000 (Some "s@x.com") (Some "111111") (JStr "sharer")
       st_reissued
     = (error 401 "invalid_otp", st_reissued).
Proof. split; reflexivity. Qed.

(** ** Roles *)

Lemma strict_eq_str_true (v : jsval) (s : string) :
  strict_eq_str v s = true <-> v = JStr s.
Proof.
  split.
  - destruct v; simpl; try discriminate.
    intros H. apply String.eqb_eq in H. now subst.
  - intros ->. simpl. apply String.eqb_refl.
Qed.

Lemma finalRole_viewer (role : jsval) :
  finalRole role = "viewer" <-> role = JStr "viewer".
Proof.
  unfold finalRole. rewrite <- strict_eq_str_true.
  destruct (strict_eq_str role "viewer"); split; trivial; discriminate.
Qed.

Lemma finalRole_sharer (role : jsval) :
  role <> JStr "viewer" -> finalRole role = "sharer".
Proof.
  intros H. unfold finalRole.
  destruct (strict_eq_str role "viewer") eqn:E; trivial.
  now apply strict_eq_str_true in E.
Qed.

Lemma finalRole_truthy (role : jsval) : truthy (Some (finalRole role)) = true.
Proof. unfold finalRole. now destruct (strict_eq_str role "viewer"). Qed.

Lemma handle_users (cfg : config) (now : Z) (rq : request) (st : state) :
  users_step (users st) (users (snd (handle cfg now rq st))).
Proof.
  destruct rq as [dns rnd mail email|email otp role|a b|a e|a v]; simpl.
  - unfold request_otp.
    destruct (negb (truthy email)); simpl; [constructor|].
    destruct (negb (isValidEmailFormat _)); simpl; [constructor|].
    destruct (negb (domainHasMX _ _)); simpl; [constructor|].
    destruct (delivered mail); simpl; constructor.
  - unfold verify_otp.
    destruct (negb (truthy email) || negb (truthy otp)); simpl; [constructor|].
    destruct (select_otp _ _) as [record|]; simpl; [|constructor].
    destruct (otp_expiresAt record <? now); simpl; [constructor|].
    destruct (negb _); simpl; [constructor|].
    destruct (select_user _ _) as [u|]; simpl; [|constructor].
    destruct (signToken _ _ _); simpl; constructor.
  - unfold post_location.
    destruct (authMiddleware cfg now a) as [r|user]; simpl; [constructor|].
    destruct (negb _); simpl; [constructor|].
    destruct (typeof_number _); simpl; [|constructor].
    destruct (typeof_number _); simpl; constructor.
  - rewrite get_location_state. constructor.
  - unfold grant_permission.
    destruct (authMiddleware cfg now a) as [r|user]; simpl; [constructor|].
    destruct (negb _); simpl; [constructor|].
    destruct (negb _); simpl; constructor.
Qed.

Lemma has_role_step (t t' : list user_row) (email r : string) :
  r <> "" -> users_step t t' -> has_role t email r -> has_role t' email r.
Proof.
  intros Hr [|email' role] (u & Hu & Hrole); [exists u; auto|].
  destruct (String.eqb_spec email email') as [<-|Hne].
  - destruct (upsert_user_keeps_role email role t u Hu) as (u' & Hu' & _ & Hr').
    + rewrite Hrole. destruct r; [contradiction|reflexivity].
    + exists u'. split; congruence.
  - exists u. split; trivial. now apply upsert_user_other.
Qed.

Lemma has_role_run (cfg : config) (rqs : list (Z * request)) (st : state)
  (email r : string) :
  r <> "" ->
  has_role (users st) email r -> has_role (users (run cfg rqs st)) email r.
Proof.
  intros Hr. revert st.
  induction rqs as [|[now rq] rqs IH]; intros st H; simpl; trivial.
  apply IH. eapply has_role_step; [trivial|apply handle_users|trivial].
Qed.

Lemma finalRole_nonempty (role : jsval) : finalRole role <> "".
Proof. unfold finalRole. destruct (strict_eq_str role "viewer"); discriminate. Qed.

(** C10.  When [POST /verify-otp] answers 200 for an email that has no user
    yet, it appends a verified user whose role is ['viewer'] if and only if
    the [role] field is the string ['viewer'], and ['sharer'] for any other
    value of the field, the absent field included; the response carries that
    role. *)
Theorem first_verification_sets_role (cfg : config) (now : Z)
  (email otp : str_field) (role : jsval) (st st' : state) (resp : response) :
  verify_otp cfg now email otp role st = (resp, st') ->
  status resp = 200 ->
  select_user (users st) (or_empty email) = None ->
  users st'
  = (users st ++ [mk_user (or_empty email) 1 (Some (finalRole role))])%list
  /\ select_user (users st') (or_empty email)
     = Some (mk_user (or_empty email) 1 (Some (finalRole role)))
  /\ (exists token,
        body resp = RVerified token (or_empty email) (Some (finalRole role)))
  /\ (finalRole role = "viewer" <-> role = JStr "viewer")
  /\ (role <> JStr "viewer" -> finalRole role = "sharer")
  /\ finalRole JUndefined = "sharer".
Proof.
  intros H Hs Hnew.
  destruct (verify_otp_success _ _ _ _ _ _ _ _ H Hs)
    as (record & user & _ & _ & _ & _ & _ & Hst & Hu & Hresp).
  assert (E : select_user (users st') (or_empty email)
              = Some (mk_user (or_empty email) 1 (Some (finalRole role)))).
  { subst st'. simpl. now apply upsert_user_creates. }
  split; [|split; [trivial|split; [|split; [|split]]]].
  - subst st'. simpl. unfold upsert_user. now rewrite Hnew.
  - rewrite E in Hu. inversion Hu; subst user.
    destruct Hresp as (token & _ & ->). simpl. eauto.
  - apply finalRole_viewer.
  - apply finalRole_sharer.
  - reflexivity.
Qed.

(** C3.  The role is fixed at creation.  After a [POST /verify-otp] that
    answers 200 and creates the user with the role field [role1], and after
    any further requests, a [POST /verify-otp] for the same email that
    answers 200, whatever its role field, leaves the stored role at the role
    of the creation, and the token and the user of its response carry that
    role; the role of the creation is [role1] when [role1] is ['viewer'] or
    ['sharer']. *)
Theorem role_fixed_at_creation (cfg : config) (now1 now2 : Z)
  (email otp1 otp2 : str_field) (role1 role2 : jsval)
  (rqs : list (Z * request)) (st0 st1 st2 : state) (resp1 resp2 : response) :
  verify_otp cfg now1 email otp1 role1 st0 = (resp1, st1) ->
  status resp1 = 200 ->
  select_user (users st0) (or_empty email) = None ->
  verify_otp cfg now2 email otp2 role2 (run cfg rqs st1) = (resp2, st2) ->
  status resp2 = 200 ->
  (exists user,
     select_user (users st2) (or_empty email) = Some user
     /\ usr_role user = Some (finalRole role1))
  /\ (exists token,
        jwt_sign cfg (mk_claims (or_empty email) (Some (finalRole role1)))
          (JWT_SECRET cfg) expiresIn_7d now2
        = Some token
        /\ resp2
           = ok (RVerified token (or_empty email) (Some (finalRole role1))))
  /\ (forall r, r = "viewer" \/ r = "sharer" ->
        role1 = JStr r -> finalRole role1 = r).
Proof.
  intros H1 Hs1 Hnew H2 Hs2.
  destruct (verify_otp_success _ _ _ _ _ _ _ _ H1 Hs1)
    as (record1 & user1 & _ & _ & _ & _ & _ & Hst1 & _ & _).
  assert (Hrole1 : has_role (users st1) (or_empty email) (finalRole role1)).
  { subst st1. simpl. eexists. split; [now apply upsert_user_creates|].
    reflexivity. }
  apply (has_role_run cfg rqs) in Hrole1; [|apply finalRole_nonempty].
  destruct Hrole1 as (u & Hu & Hur).
  destruct (verify_otp_success _ _ _ _ _ _ _ _ H2 Hs2)
    as (record2 & user & _ & _ & _ & _ & _ & Hst2 & Huser & Hresp).
  destruct (upsert_user_keeps_role (or_empty email) role2 _ u Hu)
    as (u' & Hu' & Hem' & Hr').
  { rewrite Hur. apply finalRole_truthy. }
  assert (user = u').
  { subst st2. simpl in Huser. congruence. }
  subst u'.
  split; [|split].
  - exists user. split; [trivial|congruence].
  - destruct Hresp as (token & Hsign & ->). exists token.
    unfold signToken in Hsign. rewrite Hem', Hr', Hur in Hsign.
    split; [exact Hsign|]. now rewrite Hr', Hur.
  - intros r [->| ->] ->; reflexivity.
Qed.

Lemma first_verification_sets_role_witness :
  users (snd (verify_otp demo 3000 (Some "s@x.com") (Some "111111")
                (JStr "viewer") st_issued))
  = [mk_user "s@x.com" 1 (Some "viewer")].
Proof.
  destruct (first_verification_sets_role demo 3000 (Some "s@x.com")
              (Some "111111") (JStr "viewer") st_issued _ _
              eq_refl eq_refl eq_refl) as (H & _).
  exact H.
Defined.

Lemma role_fixed_at_creation_witness :
  fst (verify_otp demo 5000 (Some "s@x.com") (Some "222222") (JStr "sharer")
         (run demo
            [(4000, RequestOtp dns_up twos (MailInfo []) (Some "s@x.com"))]
            (snd (verify_otp demo 3000 (Some "s@x.com") (Some "111111")
                    (JStr "viewer") st_issued))))
  = ok (RVerified "vs@x.com" "s@x.com" (Some "viewer")).
Proof.
  destruct (role_fixed_at_creation demo 3000 5000 (Some "s@x.com")
              (Some "111111") (Some "222222") (JStr "viewer") (JStr "sharer")
              [(4000, RequestOtp dns_up twos (MailInfo []) (Some "s@x.com"))]
              st_issued _ _ _ _ eq_refl eq_refl eq_refl eq_refl eq_refl)
    as (_ & (token & Hsign & H) & _).
  vm_compute in Hsign. inversion Hsign; subst token. exact H.
Defined.

(** ** Expiry *)

Lemma otps_wellformed_step (t t' : list otp_row) :
  otps_step t t' -> otps_wellformed t -> otps_wellformed t'.
Proof.
  intros [|email code x He Hc|id] Hwf; trivial.
  - intros r Hin. unfold insert_otp in Hin.
    apply in_app_or in Hin. destruct Hin as [Hin|[<-|[]]]; auto.
  - intros r' Hin. unfold consume_otp in Hin.
    apply in_map_iff in Hin. destruct Hin as (r & <- & Hin).
    unfold consume. destruct (otp_id r =? id); simpl; auto.
Qed.

Lemma otps_wellformed_run (cfg : config) (rqs : list (Z * request))
  (st : state) :
  otps_wellformed (otps st) -> otps_wellformed (otps (run cfg rqs st)).
Proof.
  revert st.
  induction rqs as [|[now rq] rqs IH]; intros st H; simpl; trivial.
  apply IH. eapply otps_wellformed_step; [apply handle_otps|trivial].
Qed.

Lemma otps_wellformed_reachable (cfg : config) (rqs : list (Z * request)) :
  otps_wellformed (otps (run cfg rqs empty_state)).
Proof. apply otps_wellformed_run. intros r []. Qed.

Lemma nonempty_truthy (s : string) : s <> "" -> truthy (Some s) = true.
Proof. destruct s; [contradiction|reflexivity]. Qed.

(** C8.  When the newest unconsumed record of an email expired before the
    current instant, [POST /verify-otp] answers [otp_expired] for the code
    stored in the record, as for every other code, and changes nothing: the
    record is still unconsumed. *)
Theorem expired_otp_rejected (cfg : config) (now : Z) (email : string)
  (role : jsval) (st : state) (record : otp_row) :
  otps_wellformed (otps st) ->
  select_otp (otps st) email = Some record ->
  otp_expiresAt record < now ->
  verify_otp cfg now (Some email) (Some (otp_code record)) role st
  = (error 400 "otp_expired", st)
  /\ (forall otp, truthy otp = true ->
        verify_otp cfg now (Some email) otp role st
        = (error 400 "otp_expired", st))
  /\ In record
       (otps (snd (verify_otp cfg now (Some email) (Some (otp_code record))
                     role st)))
  /\ otp_consumed record = 0.
Proof.
  intros Hwf Hsel Hexp.
  pose proof (select_otp_pending _ _ _ Hsel) as (Hin & Hem & Hc).
  destruct (Hwf record Hin) as [He Hcode].
  assert (Hany : forall otp, truthy otp = true ->
                   verify_otp cfg now (Some email) otp role st
                   = (error 400 "otp_expired", st)).
  { intros otp Ho. unfold verify_otp.
    rewrite nonempty_truthy by congruence. rewrite Ho. simpl.
    rewrite Hsel. apply Z.ltb_lt in Hexp. now rewrite Hexp. }
  split; [|split; [trivial|split; [|trivial]]].
  - apply Hany, nonempty_truthy, Hcode.
  - rewrite Hany by apply nonempty_truthy, Hcode. exact Hin.
Qed.

Lemma expired_otp_rejected_witness :
  verify_otp demo 700000 (Some "s@x.com") (Some "111111") (JStr "sharer")
    st_issued
  = (error 400 "otp_expired", st_issued).
Proof.
  destruct (expired_otp_rejected demo 700000 "s@x.com" (JStr "sharer")
              st_issued (mk_otp 1 "s@x.com" "111111" 601000 0))
    as (H & _).
  - intros r [<-|[]]. split; discriminate.
  - reflexivity.
  - reflexivity.
  - exact H.
Defined.

(** ** Email validation *)

Lemma no_mx_records_domainHasMX (dns : resolver) (email : string) :
  no_mx_records dns email -> domainHasMX dns email = false.
Proof.
  intros H. unfold domainHasMX.
  destruct (nth_error (split "@" email) 1) as [domain|] eqn:En; trivial.
  destruct (H domain En) as [E|E]; rewrite E; now destruct domain.
Qed.

(** C7, as the code has it.  For a non-empty email that fails the format
    check, [POST /request-otp] answers [invalid_email_format]; for an email
    that passes it and whose domain has no MX record, or whose resolution
    fails, it answers [invalid_email_domain]; in both cases the state is
    unchanged: no OTP row, no call to [sendMail]. *)
Theorem rejected_email_issues_nothing (cfg : config) (now : Z)
  (dns : resolver) (rnd : nat -> N) (mail : mail_outcome) (email : string)
  (st : state) :
  email <> "" ->
  (isValidEmailFormat email = false ->
   request_otp cfg now dns rnd mail (Some email) st
   = (error 400 "invalid_email_format", st))
  /\ (isValidEmailFormat email = true -> no_mx_records dns email ->
      request_otp cfg now dns rnd mail (Some email) st
      = (error 400 "invalid_email_domain", st)).
Proof.
  intros He. apply nonempty_truthy in He.
  split; unfold request_otp; rewrite He; simpl.
  - now intros ->.
  - intros -> Hmx. apply no_mx_records_domainHasMX in Hmx.
    simpl. now rewrite Hmx.
Qed.

Lemma rejected_email_issues_nothing_witness :
  request_otp demo 1000 dns_up ones (MailInfo []) (Some "s@x") st_issued
  = (error 400 "invalid_email_format", st_issued)
  /\ request_otp demo 1000 dns_down ones (MailInfo []) (Some "s@x.com")
       st_issued
     = (error 400 "invalid_email_domain", st_issued).
Proof.
  split.
  - apply (rejected_email_issues_nothing demo 1000 dns_up ones (MailInfo [])
             "s@x" st_issued); [discriminate|reflexivity].
  - apply (rejected_email_issues_nothing demo 1000 dns_down ones (MailInfo [])
             "s@x.com" st_issued);
      [discriminate|reflexivity|intros domain _; now left].
Defined.

(** C7, as the specification states it, fails: the empty string does not
    pass the format check, and [POST /request-otp] answers [email_required]
    for it, not [invalid_email_format]. *)
Lemma empty_email_is_required_not_invalid :
  isValidEmailFormat "" = false
  /\ request_otp demo 1000 dns_up ones (MailInfo []) (Some "") empty_state
     = (error 400 "email_required", empty_state)
  /\ request_otp demo 1000 dns_up ones (MailInfo []) (Some "") empty_state
     <> (error 400 "invalid_email_format", empty_state).
Proof. repeat split; [reflexivity..|discriminate]. Qed.

(** ** Locations and permissions *)

Lemma has_permission_false (t : list perm_row) (viewer sharer : string) :
  (forall r, In r t -> perm_viewer r = viewer -> perm_sharer r = sharer ->
     perm_granted r <> 1) ->
  has_permission t viewer sharer = false.
Proof.
  intros H. unfold has_permission.
  destruct (existsb _ t) eqn:E; trivial.
  apply existsb_exists in E. destruct E as (r & Hin & Hr).
  apply andb_true_iff in Hr. destruct Hr as [Hk Hg].
  unfold perm_key in Hk. apply andb_true_iff in Hk. destruct Hk as [Hv Hs].
  apply String.eqb_eq in Hv, Hs. apply Z.eqb_eq in Hg.
  now destruct (H r Hin Hv Hs).
Qed.

(** C4.  For a token that verifies with the role ['viewer'], when no row of
    [permissions] from the token's email to the sharer has [granted = 1],
    [GET /locations/:email] answers 403 [no_permission], which carries no
    location, whatever rows [locations] has, and changes nothing. *)
Theorem ungranted_viewer_gets_no_location (cfg : config) (now : Z)
  (authorization : str_field) (user : claims) (sharerEmail : string)
  (st : state) :
  authMiddleware cfg now authorization = inr user ->
  role_is user "viewer" = true ->
  (forall r, In r (permissions st) ->
     perm_viewer r = tok_email user -> perm_sharer r = sharerEmail ->
     perm_granted r <> 1) ->
  get_location cfg now authorization sharerEmail st
  = (error 403 "no_permission", st).
Proof.
  intros Ha Hr Hp. unfold get_location. rewrite Ha, Hr. simpl.
  now rewrite (has_permission_false _ _ _ Hp).
Qed.

(** What [POST /locations] does once the token and the body are accepted. *)
Lemma post_location_appends (cfg : config) (now : Z)
  (authorization : str_field) (user : claims) (req_body : json_body)
  (lat lng : number) (st : state) :
  authMiddleware cfg now authorization = inr user ->
  role_is user "sharer" = true ->
  typeof_number (field req_body "lat") = Some lat ->
  typeof_number (field req_body "lng") = Some lng ->
  post_location cfg now authorization req_body st
  = (ok (RMessage "location_saved"),
     set_locations st
       (insert_location (locations st) (tok_email user) lat lng now)).
Proof.
  intros Ha Hr Hlat Hlng. unfold post_location.
  now rewrite Ha, Hr, Hlat, Hlng.
Qed.

(** C9.  For a token that verifies with the role ['sharer'] and a body
    whose [lat] and [lng] are numbers, [POST /locations] appends one row,
    under the email of the token, with these coordinates as the [REAL]
    columns keep them; the other fields of the body play no part. *)
Theorem location_stored_under_token_email (cfg : config) (now : Z)
  (authorization : str_field) (user : claims) (req_body : json_body)
  (lat lng : number) (st : state) :
  authMiddleware cfg now authorization = inr user ->
  role_is user "sharer" = true ->
  field req_body "lat" = JNum lat ->
  field req_body "lng" = JNum lng ->
  post_location cfg now authorization req_body st
  = (ok (RMessage "location_saved"),
     set_locations st
       (locations st
        ++ [mk_loc (next_id (map loc_id (locations st))) (tok_email user)
              (sqlite_real lat) (sqlite_real lng) (now / 1000)])%list).
Proof.
  intros Ha Hr Hlat Hlng.
  apply post_location_appends; trivial; [now rewrite Hlat|now rewrite Hlng].
Qed.

Lemma ungranted_viewer_gets_no_location_witness :
  locations st_located = [mk_loc 1 "s@x.com" ten twenty 6]
  /\ get_location demo 7000 (Some "Bearer vv@y.com") "s@x.com" st_located
     = (error 403 "no_permission", st_located).
Proof.
  split; [reflexivity|].
  apply (ungranted_viewer_gets_no_location demo 7000 (Some "Bearer vv@y.com")
           (mk_claims "v@y.com" (Some "viewer")) "s@x.com" st_located);
    [reflexivity|reflexivity|intros r []].
Defined.

Lemma location_stored_under_token_email_witness :
  locations
    (snd (post_location demo 6000 (Some "Bearer ss@x.com")
            [("email", JStr "v@y.com"); ("lat", JNum ten);
             ("lng", JNum twenty)] empty_state))
  = [mk_loc 1 "s@x.com" ten twenty 6].
Proof.
  rewrite (location_stored_under_token_email demo 6000
             (Some "Bearer ss@x.com") (mk_claims "s@x.com" (Some "sharer"))
             [("email", JStr "v@y.com"); ("lat", JNum ten);
              ("lng", JNum twenty)] ten twenty empty_state);
    reflexivity.
Defined.

(** The row just inserted is the latest one of its email when no row of that
    email carries a later timestamp. *)
Lemma select_latest_inserted (t : list loc_row) (email : string)
  (lat lng : number) (now : Z) :
  (forall r, In r t -> loc_email r = email -> loc_updatedAt r <= now / 1000) ->
  select_latest (insert_location t email lat lng now) email
  = Some (mk_loc (next_id (map loc_id t)) email (sqlite_real lat)
            (sqlite_real lng) (now / 1000)).
Proof.
  intros Hclock. unfold select_latest, insert_location.
  rewrite filter_app. simpl. rewrite String.eqb_refl.
  apply top_by_last. intros y Hy. apply filter_In in Hy.
  destruct Hy as [Hin He]. apply String.eqb_eq in He.
  pose proof (Hclock y Hin He) as Hle.
  pose proof (next_id_fresh _ _ (in_map loc_id _ _ Hin)) as Hid.
  unfold loc_older. simpl.
  destruct (loc_updatedAt y <? now / 1000) eqn:E; trivial. simpl.
  apply Z.ltb_ge in E.
  apply andb_true_iff. split; [apply Z.eqb_eq|apply Z.ltb_lt]; lia.
Qed.

(** The only write to [locations]: the insertion of [POST /locations],
    stamped with the instant of the request. *)
Lemma handle_locations (cfg : config) (now : Z) (rq : request) (st : state) :
  locations (snd (handle cfg now rq st)) = locations st
  \/ exists email lat lng,
       locations (snd (handle cfg now rq st))
       = insert_location (locations st) email lat lng now.
Proof.
  destruct rq as [dns rnd mail email|email otp role|a b|a e|a v]; simpl.
  - left. unfold request_otp.
    destruct (negb (truthy email)); simpl; trivial.
    destruct (negb (isValidEmailFormat _)); simpl; trivial.
    destruct (negb (domainHasMX _ _)); simpl; trivial.
    destruct (delivered mail); simpl; trivial.
  - left. unfold verify_otp.
    destruct (negb (truthy email) || negb (truthy otp)); simpl; trivial.
    destruct (select_otp _ _) as [record|]; simpl; trivial.
    destruct (otp_expiresAt record <? now); simpl; trivial.
    destruct (negb _); simpl; trivial.
    destruct (select_user _ _) as [u|]; simpl; trivial.
    destruct (signToken _ _ _); simpl; trivial.
  - unfold post_location.
    destruct (authMiddleware cfg now a) as [r|user]; simpl; auto.
    destruct (negb _); simpl; auto.
    destruct (typeof_number _); simpl; auto.
    destruct (typeof_number _); simpl; eauto.
  - left. now rewrite get_location_state.
  - left. unfold grant_permission.
    destruct (authMiddleware cfg now a) as [r|user]; simpl; trivial.
    destruct (negb _); simpl; trivial.
    destruct (negb _); simpl; trivial.
Qed.

(** With a clock that does not go back, no row is stamped after the instant
    of the last request. *)
Lemma stamped_by_run (cfg : config) (rqs : list (Z * request)) (st : state)
  (now : Z) :
  stamped_by (locations st) now ->
  chronological now rqs ->
  stamped_by (locations (run cfg rqs st)) (last_instant now rqs).
Proof.
  revert st now.
  induction rqs as [|[t rq] rqs IH]; intros st now Hst Hch; simpl; trivial.
  destruct Hch as [Hle Hch]. apply IH; trivial.
  assert (Hdiv : now / 1000 <= t / 1000) by now apply Z.div_le_mono.
  intros r Hin.
  destruct (handle_locations cfg t rq st) as [E|(e & lat & lng & E)];
    rewrite E in Hin.
  - specialize (Hst r Hin). lia.
  - unfold insert_location in Hin. apply in_app_or in Hin.
    destruct Hin as [Hin|[<-|[]]]; [specialize (Hst r Hin); lia|simpl; lia].
Qed.

(** X22.  When the requests are handled at instants that do not decrease,
    no location row is stamped after the second of the last request. *)
Lemma stamped_by_reachable (cfg : config) (rqs : list (Z * request)) :
  chronological 0 rqs ->
  stamped_by (locations (run cfg rqs empty_state)) (last_instant 0 rqs).
Proof. apply stamped_by_run. intros r []. Qed.

Lemma loc_older_false (a b : loc_row) :
  loc_older a b = false -> loc_le b a.
Proof.
  unfold loc_older, loc_le. intros H.
  apply orb_false_iff in H. destruct H as [H1 H2].
  apply Z.ltb_ge in H1. apply andb_false_iff in H2.
  destruct H2 as [H2|H2]; [apply Z.eqb_neq in H2|apply Z.ltb_ge in H2]; lia.
Qed.

Lemma loc_older_true (a b : loc_row) : loc_older a b = true -> loc_le a b.
Proof.
  unfold loc_older, loc_le. intros H.
  apply orb_true_iff in H. destruct H as [H|H].
  - apply Z.ltb_lt in H. lia.
  - apply andb_true_iff in H. destruct H as [H1 H2].
    apply Z.eqb_eq in H1. apply Z.ltb_lt in H2. lia.
Qed.

Lemma loc_le_trans (a b c : loc_row) : loc_le a b -> loc_le b c -> loc_le a c.
Proof. unfold loc_le. lia. Qed.

Lemma loc_le_refl (a : loc_row) : loc_le a a.
Proof. unfold loc_le. lia. Qed.

Lemma keep_top_fold_latest (rows : list loc_row) (acc : option loc_row)
  (x : loc_row) :
  fold_left (keep_top loc_older) rows acc = Some x ->
  (forall y, In y rows -> loc_le y x)
  /\ (forall b, acc = Some b -> loc_le b x).
Proof.
  revert acc.
  induction rows as [|r rows IH]; simpl; intros acc H.
  - split; [intros y []|]. intros b Hb. rewrite Hb in H.
    inversion H. apply loc_le_refl.
  - destruct (IH _ H) as [Hrows Hacc]. split.
    + intros y [Hy|Hy]; [subst y|auto].
      destruct acc as [b|]; simpl in Hacc.
      * destruct (loc_older b r) eqn:E.
        -- now apply Hacc.
        -- apply loc_older_false in E.
           eapply loc_le_trans; [exact E|]. now apply Hacc.
      * now apply Hacc.
    + intros b ->. simpl in Hacc.
      destruct (loc_older b r) eqn:E.
      * apply loc_older_true in E.
        eapply loc_le_trans; [exact E|]. now apply Hacc.
      * now apply Hacc.
Qed.

(** C6, as the code has it.  [POST /locations] appends.  After two posts
    with the same sharer token both rows are in the table, after the rows
    that were there, and [GET /locations/:email] by a viewer with a grant
    answers the row of the sharer that comes last in the order of
    timestamps, then ids.  That row is the second post when its timestamp is
    not earlier than the first's and no earlier row of the sharer is stamped
    later, as under a clock that does not go back; two posts within one
    second are told apart by their ids. *)
Theorem latest_location_wins (cfg : config) (t1 t2 now : Z)
  (sharer_auth viewer_auth : str_field) (sharer viewer : claims)
  (body1 body2 : json_body) (lat1 lng1 lat2 lng2 : number) (st : state) :
  let st1 := snd (post_location cfg t1 sharer_auth body1 st) in
  let st2 := snd (post_location cfg t2 sharer_auth body2 st1) in
  let first :=
    mk_loc (next_id (map loc_id (locations st))) (tok_email sharer)
      (sqlite_real lat1) (sqlite_real lng1) (t1 / 1000) in
  let second :=
    mk_loc (next_id (map loc_id (locations st1))) (tok_email sharer)
      (sqlite_real lat2) (sqlite_real lng2) (t2 / 1000) in
  authMiddleware cfg t1 sharer_auth = inr sharer ->
  authMiddleware cfg t2 sharer_auth = inr sharer ->
  role_is sharer "sharer" = true ->
  field body1 "lat" = JNum lat1 -> field body1 "lng" = JNum lng1 ->
  field body2 "lat" = JNum lat2 -> field body2 "lng" = JNum lng2 ->
  authMiddleware cfg now viewer_auth = inr viewer ->
  role_is viewer "viewer" = true ->
  has_permission (permissions st2) (tok_email viewer) (tok_email sharer)
  = true ->
  locations st2 = (locations st ++ [first; second])%list
  /\ exists best,
       In best (locations st2)
       /\ loc_email best = tok_email sharer
       /\ (forall r, In r (locations st2) ->
             loc_email r = tok_email sharer -> loc_le r best)
       /\ get_location cfg now viewer_auth (tok_email sharer) st2
          = (ok (RLocation (tok_email sharer) (loc_lat best) (loc_lng best)
                   (loc_updatedAt best)), st2)
       /\ (t1 / 1000 <= t2 / 1000 ->
           (forall r, In r (locations st) ->
              loc_email r = tok_email sharer ->
              loc_updatedAt r <= t2 / 1000) ->
           best = second).
Proof.
  intros st1 st2 first second Ha1 Ha2 Hrs Hlat1 Hlng1 Hlat2 Hlng2 Hav Hrv
    Hperm.
  assert (E1 : st1 = set_locations st
                       (insert_location (locations st) (tok_email sharer)
                          lat1 lng1 t1)).
  { unfold st1. rewrite (post_location_appends cfg t1 sharer_auth sharer
                           body1 lat1 lng1 st); trivial;
      [now rewrite Hlat1|now rewrite Hlng1]. }
  assert (E2 : st2 = set_locations st1
                       (insert_location (locations st1) (tok_email sharer)
                          lat2 lng2 t2)).
  { unfold st2. rewrite (post_location_appends cfg t2 sharer_auth sharer
                           body2 lat2 lng2 st1); trivial;
      [now rewrite Hlat2|now rewrite Hlng2]. }
  assert (EL : locations st2 = (locations st ++ [first; second])%list).
  { rewrite E2. simpl. unfold insert_location at 1.
    rewrite E1 at 1. simpl. unfold insert_location at 1.
    now rewrite <- app_assoc. }
  split; [exact EL|].
  unfold get_location. rewrite Hav, Hrv, Hperm. simpl.
  destruct (select_latest (locations st2) (tok_email sharer)) as [best|]
    eqn:E.
  - exists best. unfold select_latest in E.
    pose proof (top_by_In _ _ _ E) as Hin. apply filter_In in Hin.
    destruct Hin as [Hin He]. apply String.eqb_eq in He.
    pose proof (keep_top_fold_latest _ _ _ E) as [Hmax _].
    split; [exact Hin|]. split; [exact He|]. split; [|split].
    + intros r Hr Hre. apply Hmax, filter_In. split; trivial.
      now apply String.eqb_eq.
    + now rewrite He.
    + intros Ht Hclock.
      assert (Es : select_latest (locations st2) (tok_email sharer)
                   = Some second).
      { rewrite E2 at 1. simpl. apply select_latest_inserted.
        intros r Hr Hre. rewrite E1 in Hr. simpl in Hr.
        unfold insert_location in Hr. apply in_app_or in Hr.
        destruct Hr as [Hr|[<-|[]]]; [now apply Hclock|exact Ht]. }
      unfold select_latest in Es. rewrite E in Es. now inversion Es.
  - exfalso. unfold select_latest in E. apply top_by_none in E.
    assert (Hs : In second
                   (filter (fun r => String.eqb (loc_email r)
                                       (tok_email sharer))
                      (locations st2))).
    { apply filter_In. split.
      - rewrite EL. apply in_or_app. right. right. left. reflexivity.
      - apply String.eqb_refl. }
    rewrite E in Hs. destruct Hs.
Qed.

Lemma latest_location_wins_witness :
  get_location demo 9000 (Some "Bearer vv@y.com") "s@x.com"
    (snd (post_location demo 7900 (Some "Bearer ss@x.com")
            [("lat", JNum thirty); ("lng", JNum forty)]
            (snd (post_location demo 7100 (Some "Bearer ss@x.com")
                    [("lat", JNum ten); ("lng", JNum forty)] st_granted))))
  = (ok (RLocation "s@x.com" thirty forty 7),
     snd (post_location demo 7900 (Some "Bearer ss@x.com")
            [("lat", JNum thirty); ("lng", JNum forty)]
            (snd (post_location demo 7100 (Some "Bearer ss@x.com")
                    [("lat", JNum ten); ("lng", JNum forty)] st_granted)))).
Proof.
  destruct (latest_location_wins demo 7100 7900 9000 (Some "Bearer ss@x.com")
              (Some "Bearer vv@y.com") (mk_claims "s@x.com" (Some "sharer"))
              (mk_claims "v@y.com" (Some "viewer"))
              [("lat", JNum ten); ("lng", JNum forty)]
              [("lat", JNum thirty); ("lng", JNum forty)]
              ten forty thirty forty st_granted
              eq_refl eq_refl eq_refl eq_refl eq_refl eq_refl eq_refl
              eq_refl eq_refl eq_refl)
    as (_ & best & _ & _ & _ & Hget & Hsecond).
  rewrite Hsecond in Hget.
  - exact Hget.
  - discriminate.
  - intros r [<-|[]] _. discriminate.
Defined.

(** C6, as the specification states it, fails: when the second post is
    stamped earlier than the first, the clock having gone back a second,
    the fetch answers the coordinates of the first post. *)
Lemma second_post_not_returned_when_clock_steps_back :
  get_location demo 9500 (Some "Bearer vv@y.com") "s@x.com"
    (snd (grant_permission demo 9400 (Some "Bearer ss@x.com")
            (Some "v@y.com")
            (snd (post_location demo 8000 (Some "Bearer ss@x.com")
                    [("lat", JNum thirty); ("lng", JNum forty)]
                    (snd (post_location demo 9000 (Some "Bearer ss@x.com")
                            [("lat", JNum ten); ("lng", JNum twenty)]
                            empty_state))))))
  = (ok (RLocation "s@x.com" ten twenty 9),
     snd (grant_permission demo 9400 (Some "Bearer ss@x.com")
            (Some "v@y.com")
            (snd (post_location demo 8000 (Some "Bearer ss@x.com")
                    [("lat", JNum thirty); ("lng", JNum forty)]
                    (snd (post_location demo 9000 (Some "Bearer ss@x.com")
                            [("lat", JNum ten); ("lng", JNum twenty)]
                            empty_state)))))).
Proof. reflexivity. Qed.

(** ** Grants *)

Lemma perm_key_true (viewer sharer : string) (r : perm_row) :
  perm_key viewer sharer r = true
  <-> (perm_viewer r, perm_sharer r) = (viewer, sharer).
Proof.
  unfold perm_key. rewrite andb_true_iff, !String.eqb_eq.
  split; [intros [-> ->]; reflexivity|intros H; inversion H; auto].
Qed.

Lemma has_grant_row (t : list perm_row) (viewer sharer : string) :
  existsb (perm_key viewer sharer) t = true <-> In (viewer, sharer) (perm_keys t).
Proof.
  unfold perm_keys. rewrite existsb_exists, in_map_iff.
  split; intros (r & H1 & H2); exists r.
  - apply perm_key_true in H2. auto.
  - split; [trivial|now apply perm_key_true].
Qed.

Lemma regrant_keys (t : list perm_row) (viewer sharer : string) :
  perm_keys
    (map (fun r => if perm_key viewer sharer r then set_granted r else r) t)
  = perm_keys t.
Proof.
  unfold perm_keys. rewrite map_map. apply map_ext.
  intros r. now destruct (perm_key viewer sharer r).
Qed.

(** The upsert keeps [UNIQUE(viewer_email, sharer_email)]. *)
Lemma upsert_permission_unique (t : list perm_row) (viewer sharer : string) :
  NoDup (perm_keys t) -> NoDup (perm_keys (upsert_permission t viewer sharer)).
Proof.
  intros Hnd. unfold upsert_permission.
  destruct (existsb (perm_key viewer sharer) t) eqn:E.
  - now rewrite regrant_keys.
  - unfold perm_keys. rewrite map_app. simpl.
    apply NoDup_app; trivial.
    + constructor; [intros []|constructor].
    + intros k Hk [<-|[]].
      apply has_grant_row in Hk. congruence.
Qed.

Lemma upsert_permission_has_row (t : list perm_row) (viewer sharer : string) :
  existsb (perm_key viewer sharer) (upsert_permission t viewer sharer) = true.
Proof.
  unfold upsert_permission.
  destruct (existsb (perm_key viewer sharer) t) eqn:E.
  - apply has_grant_row. rewrite regrant_keys. now apply has_grant_row.
  - rewrite existsb_app. simpl. unfold perm_key at 2. simpl.
    rewrite !String.eqb_refl. simpl. apply orb_true_r.
Qed.

(** After the upsert every row of the pair has [granted = 1]. *)
Lemma upsert_permission_granted (t : list perm_row) (viewer sharer : string)
  (r : perm_row) :
  In r (upsert_permission t viewer sharer) ->
  perm_key viewer sharer r = true -> perm_granted r = 1.
Proof.
  unfold upsert_permission.
  destruct (existsb (perm_key viewer sharer) t) eqn:E; intros Hin Hk.
  - apply in_map_iff in Hin. destruct Hin as (r0 & <- & Hin0).
    destruct (perm_key viewer sharer r0) eqn:E0; [reflexivity|].
    congruence.
  - apply in_app_or in Hin. destruct Hin as [Hin|[<-|[]]]; [|reflexivity].
    assert (existsb (perm_key viewer sharer) t = true); [|congruence].
    apply existsb_exists. eauto.
Qed.

(** Writing [granted = 1] again on rows that have it changes nothing. *)
Lemma regrant_granted (t : list perm_row) (viewer sharer : string) :
  (forall r, In r t -> perm_key viewer sharer r = true -> perm_granted r = 1) ->
  map (fun r => if perm_key viewer sharer r then set_granted r else r) t = t.
Proof.
  intros H. rewrite <- (map_id t) at 2. apply map_ext_in.
  intros r Hin. destruct (perm_key viewer sharer r) eqn:E; trivial.
  unfold set_granted. rewrite <- (H r Hin E). now destruct r.
Qed.

Lemma upsert_permission_idempotent (t : list perm_row)
  (viewer sharer : string) :
  upsert_permission (upsert_permission t viewer sharer) viewer sharer
  = upsert_permission t viewer sharer.
Proof.
  unfold upsert_permission at 1. rewrite upsert_permission_has_row.
  apply regrant_granted. intros r. apply upsert_permission_granted.
Qed.

(** Under the uniqueness constraint a pair that has a row has one row. *)
Lemma count_grants_unique (t : list perm_row) (viewer sharer : string) :
  NoDup (perm_keys t) ->
  In (viewer, sharer) (perm_keys t) ->
  count_grants t viewer sharer = 1%nat.
Proof.
  unfold count_grants.
  induction t as [|r t IH]; simpl; intros Hnd Hin; [contradiction|].
  apply NoDup_cons_iff in Hnd. destruct Hnd as [Hnotin Hnd].
  destruct (perm_key viewer sharer r) eqn:E.
  - apply perm_key_true in E. rewrite E in Hnotin. simpl. f_equal.
    destruct (filter (perm_key viewer sharer) t) as [|r' l] eqn:F; trivial.
    exfalso. apply Hnotin.
    assert (Hr' : In r' (filter (perm_key viewer sharer) t)).
    { rewrite F. now left. }
    apply filter_In in Hr'. destruct Hr' as [Hr' Hk].
    apply perm_key_true in Hk. rewrite <- Hk.
    unfold perm_keys. apply (in_map (fun r => (perm_viewer r, perm_sharer r))).
    exact Hr'.
  - destruct Hin as [Hin|Hin]; [|auto].
    apply perm_key_true in Hin. congruence.
Qed.

Lemma upsert_permission_permits (t : list perm_row) (viewer sharer : string) :
  has_permission (upsert_permission t viewer sharer) viewer sharer = true.
Proof.
  pose proof (upsert_permission_has_row t viewer sharer) as H.
  apply existsb_exists in H. destruct H as (r & Hin & Hk).
  unfold has_permission. apply existsb_exists. exists r. split; trivial.
  rewrite Hk. simpl. apply Z.eqb_eq.
  now apply (upsert_permission_granted t viewer sharer).
Qed.

(** The only write to [permissions]: the upsert of
    [POST /permissions/grant]. *)
Lemma handle_permissions (cfg : config) (now : Z) (rq : request) (st : state) :
  permissions (snd (handle cfg now rq st)) = permissions st
  \/ exists viewer sharer,
       permissions (snd (handle cfg now rq st))
       = upsert_permission (permissions st) viewer sharer.
Proof.
  destruct rq as [dns rnd mail email|email otp role|a b|a e|a v]; simpl.
  - left. unfold request_otp.
    destruct (negb (truthy email)); simpl; trivial.
    destruct (negb (isValidEmailFormat _)); simpl; trivial.
    destruct (negb (domainHasMX _ _)); simpl; trivial.
    destruct (delivered mail); simpl; trivial.
  - left. unfold verify_otp.
    destruct (negb (truthy email) || negb (truthy otp)); simpl; trivial.
    destruct (select_otp _ _) as [record|]; simpl; trivial.
    destruct (otp_expiresAt record <? now); simpl; trivial.
    destruct (negb _); simpl; trivial.
    destruct (select_user _ _) as [u|]; simpl; trivial.
    destruct (signToken _ _ _); simpl; trivial.
  - left. unfold post_location.
    destruct (authMiddleware cfg now a) as [r|user]; simpl; trivial.
    destruct (negb _); simpl; trivial.
    destruct (typeof_number _); simpl; trivial.
    destruct (typeof_number _); simpl; trivial.
  - left. now rewrite get_location_state.
  - unfold grant_permission.
    destruct (authMiddleware cfg now a) as [r|user]; simpl; auto.
    destruct (negb _); simpl; auto.
    destruct (negb _); simpl; eauto.
Qed.

(** The uniqueness constraint holds in every state that the server reaches. *)
Lemma permissions_unique_run (cfg : config) (rqs : list (Z * request))
  (st : state) :
  permissions_unique st -> permissions_unique (run cfg rqs st).
Proof.
  revert st.
  induction rqs as [|[now rq] rqs IH]; intros st H; simpl; trivial.
  apply IH. unfold permissions_unique in *.
  destruct (handle_permissions cfg now rq st) as [->|(v & s & ->)]; trivial.
  now apply upsert_permission_unique.
Qed.

(** X24.  In every state that the server reaches from the empty database
    a pair of viewer and sharer has at most one row of [permissions]: the
    upsert never meets, and never breaks, the [UNIQUE] constraint. *)
Lemma permissions_unique_reachable (cfg : config) (rqs : list (Z * request)) :
  permissions_unique (run cfg rqs empty_state).
Proof. apply permissions_unique_run. constructor. Qed.

(** C5.  [POST /permissions/grant] is idempotent.  For a token that verifies
    with the role ['sharer'] and a non-empty [viewerEmail], the call answers
    [permission_granted] the first and the second time, the state after the
    second call is the state after the first, and it has one row for the
    pair, with [granted = 1]. *)
Theorem grant_is_idempotent (cfg : config) (now1 now2 : Z)
  (authorization viewerEmail : str_field) (sharer : claims) (st : state) :
  let once := grant_permission cfg now1 authorization viewerEmail st in
  let twice := grant_permission cfg now2 authorization viewerEmail (snd once) in
  permissions_unique st ->
  authMiddleware cfg now1 authorization = inr sharer ->
  authMiddleware cfg now2 authorization = inr sharer ->
  role_is sharer "sharer" = true ->
  truthy viewerEmail = true ->
  fst once = ok RGranted
  /\ fst twice = ok RGranted
  /\ snd twice = snd once
  /\ count_grants (permissions (snd twice)) (or_empty viewerEmail)
       (tok_email sharer) = 1%nat
  /\ (forall r, In r (permissions (snd twice)) ->
        perm_key (or_empty viewerEmail) (tok_email sharer) r = true ->
        perm_granted r = 1)
  /\ has_permission (permissions (snd twice)) (or_empty viewerEmail)
       (tok_email sharer) = true.
Proof.
  intros once twice Hu Ha1 Ha2 Hr Hv.
  set (v := or_empty viewerEmail). set (s := tok_email sharer).
  assert (E1 : once = (ok RGranted,
                       set_permissions st
                         (upsert_permission (permissions st) v s))).
  { unfold once, grant_permission. now rewrite Ha1, Hr, Hv. }
  assert (E2 : twice = (ok RGranted, snd once)).
  { unfold twice, grant_permission. rewrite Ha2, Hr, Hv. simpl.
    rewrite E1. simpl. fold v s. rewrite upsert_permission_idempotent.
    reflexivity. }
  rewrite E2. simpl. rewrite E1. simpl.
  repeat split.
  - apply count_grants_unique.
    + now apply upsert_permission_unique.
    + apply has_grant_row, upsert_permission_has_row.
  - intros r. apply upsert_permission_granted.
  - apply upsert_permission_permits.
Qed.

Lemma grant_is_idempotent_witness :
  snd (grant_permission demo 8000 (Some "Bearer ss@x.com") (Some "v@y.com")
         st_granted)
  = st_granted
  /\ permissions st_granted = [mk_perm "v@y.com" "s@x.com" 1].
Proof.
  split; [|reflexivity].
  pose proof (grant_is_idempotent demo 7000 8000 (Some "Bearer ss@x.com")
                (Some "v@y.com") (mk_claims "s@x.com" (Some "sharer"))
                st_located (NoDup_nil _) eq_refl eq_refl eq_refl eq_refl)
    as (_ & _ & H & _).
  exact H.
Defined.

(** ** The scenario of the specification *)

Example scenario_tokens :
  fst (handle demo 2000
         (VerifyOtp (Some "s@x.com") (Some "111111") (JStr "sharer"))
         (run demo (firstn 1 scenario) empty_state))
  = ok (RVerified "ss@x.com" "s@x.com" (Some "sharer"))
  /\ fst (handle demo 4000
            (VerifyOtp (Some "v@y.com") (Some "222222") (JStr "viewer"))
            (run demo (firstn 3 scenario) empty_state))
     = ok (RVerified "vv@y.com" "v@y.com" (Some "viewer")).
Proof. split; reflexivity. Qed.

Example scenario_fetch_before_grant :
  fst (get_location demo 6000 (Some "Bearer vv@y.com") "s@x.com"
         (run demo scenario empty_state))
  = error 403 "no_permission".
Proof. reflexivity. Qed.

Example scenario_fetch_after_grant :
  let granted :=
    snd (grant_permission demo 7000 (Some "Bearer ss@x.com") (Some "v@y.com")
           (run demo scenario empty_state)) in
  fst (grant_permission demo 7000 (Some "Bearer ss@x.com") (Some "v@y.com")
         (run demo scenario empty_state))
  = ok RGranted
  /\ fst (get_location demo 8000 (Some "Bearer vv@y.com") "s@x.com" granted)
     = ok (RLocation "s@x.com" ten twenty 5).
Proof. split; reflexivity. Qed.

(** Two posts within one second: the ids break the tie. *)
Example same_second_posts :
  fst (get_location demo 9000 (Some "Bearer vv@y.com") "s@x.com"
         (snd (post_location demo 7900 (Some "Bearer ss@x.com")
                 [("lat", JNum thirty); ("lng", JNum forty)]
                 (snd (post_location demo 7100 (Some "Bearer ss@x.com")
                         [("lat", JNum ten); ("lng", JNum forty)]
                         st_granted)))))
  = ok (RLocation "s@x.com" thirty forty 7).
Proof. reflexivity. Qed.

(** The format check on a few addresses. *)
Example email_formats :
  map isValidEmailFormat
    ["a@b.co"; "a@b.c.d"; "a@b"; "a b@c.d"; "a@@b.c"; "a@.c"; "a@b."; "@b.c"]
  = [true; true; false; false; false; false; false; false].
Proof. reflexivity. Qed.

(** * Further properties of the code *)

(** ** Strings *)

Lemma append_nil_r (s : string) : (s ++ "")%string = s.
Proof. induction s as [|c s IH]; simpl; [trivial|now rewrite IH]. Qed.

Lemma append_assoc (s t u : string) :
  ((s ++ t) ++ u)%string = (s ++ (t ++ u))%string.
Proof. induction s as [|c s IH]; simpl; [trivial|now rewrite IH]. Qed.

Lemma append_eq_nil (s t : string) :
  (s ++ t)%string = "" -> s = "" /\ t = "".
Proof. destruct s; simpl; [auto|discriminate]. Qed.

Lemma all_chars_append (p : ascii -> bool) (s t : string) :
  all_chars p (s ++ t) = all_chars p s && all_chars p t.
Proof.
  induction s as [|c s IH]; simpl; trivial.
  now rewrite IH, andb_assoc.
Qed.

(** ** The matcher decides the language *)

Lemma nullable_matches (r : Regex.re) :
  Regex.nullable r = true <-> matches r "".
Proof.
  induction r as [| |p|a IHa b IHb|a IHa b IHb|a IHa]; simpl.
  - split; [discriminate|inversion 1].
  - split; [constructor|trivial].
  - split; [discriminate|inversion 1].
  - rewrite andb_true_iff, IHa, IHb. split.
    + intros [Ha Hb]. change "" with ("" ++ "")%string. now constructor.
    + inversion 1; subst.
      match goal with
      | E : (_ ++ _)%string = "" |- _ =>
          apply append_eq_nil in E; destruct E; subst
      end.
      auto.
  - rewrite orb_true_iff, IHa, IHb. split.
    + intros [H|H]; [now apply matches_alt_l|now apply matches_alt_r].
    + inversion 1; subst; auto.
  - split; [constructor|trivial].
Qed.

(** A non-empty word of [a*] begins with a non-empty word of [a]. *)
Lemma matches_star_cons_inv (a : Regex.re) (c : ascii) (s : string) :
  matches (Regex.Star a) (String c s) ->
  exists s1 s2,
    s = (s1 ++ s2)%string /\ matches a (String c s1)
    /\ matches (Regex.Star a) s2.
Proof.
  intros H. remember (Regex.Star a) as r eqn:Er.
  remember (String c s) as w eqn:Ew.
  revert c s Ew. induction H as [| | | | | |a' s1 s2 H1 _ H2 IH2];
    intros d u Ew; try discriminate.
  inversion Er; subst a'.
  destruct s1 as [|c1 s1]; simpl in Ew.
  - now apply IH2.
  - inversion Ew; subst. eauto.
Qed.

Lemma deriv_matches (r : Regex.re) (c : ascii) (s : string) :
  matches (Regex.deriv c r) s <-> matches r (String c s).
Proof.
  revert s.
  induction r as [| |p|a IHa b IHb|a IHa b IHb|a IHa]; intros s; simpl.
  - split; inversion 1.
  - split; inversion 1.
  - destruct (p c) eqn:E; split.
    + inversion 1; subst. now constructor.
    + inversion 1; subst. constructor.
    + inversion 1.
    + inversion 1; subst. congruence.
  - assert (Hleft : forall w, matches (Regex.Seq (Regex.deriv c a) b) w ->
                      matches (Regex.Seq a b) (String c w)).
    { inversion 1 as [| |a' b' s1 s2 H1 H2| | | |]; subst.
      apply IHa in H1. change (String c (s1 ++ s2)) with
        (String c s1 ++ s2)%string. now constructor. }
    assert (Hright : matches (Regex.Seq a b) (String c s) ->
              matches (Regex.Seq (Regex.deriv c a) b) s
              \/ (matches a "" /\ matches (Regex.deriv c b) s)).
    { intros H. remember (String c s) as w eqn:Ew.
      inversion H as [| |a' b' s1 s2 H1 H2| | | |]; subst.
      destruct s1 as [|c1 s1]; simpl in *.
      - right. split; trivial. apply IHb. congruence.
      - match goal with
        | E : String _ _ = String _ _ |- _ => inversion E; subst
        end.
        left. constructor; trivial. now apply IHa. }
    destruct (Regex.nullable a) eqn:En; split.
    + inversion 1; subst; [auto|].
      apply nullable_matches in En.
      change (String c s) with ("" ++ String c s)%string.
      constructor; trivial. now apply IHb.
    + intros H. destruct (Hright H) as [H'|[_ H']];
        [now apply matches_alt_l|now apply matches_alt_r].
    + auto.
    + intros H. destruct (Hright H) as [H'|[H' _]]; trivial.
      apply nullable_matches in H'. congruence.
  - split.
    + inversion 1; subst;
        [apply matches_alt_l|apply matches_alt_r]; [apply IHa|apply IHb];
        assumption.
    + inversion 1; subst;
        [apply matches_alt_l|apply matches_alt_r]; [apply IHa|apply IHb];
        assumption.
  - split.
    + inversion 1 as [| |a' b' s1 s2 H1 H2| | | |]; subst.
      apply IHa in H1.
      change (String c (s1 ++ s2)) with (String c s1 ++ s2)%string.
      now constructor.
    + intros H. apply matches_star_cons_inv in H.
      destruct H as (s1 & s2 & -> & H1 & H2).
      constructor; trivial. now apply IHa.
Qed.

Lemma test_matches (r : Regex.re) (s : string) :
  Regex.test r s = true <-> matches r s.
Proof.
  revert r. induction s as [|c s IH]; intros r; simpl.
  - apply nullable_matches.
  - rewrite IH. apply deriv_matches.
Qed.

Lemma matches_class_inv (p : ascii -> bool) (s : string) :
  matches (Regex.Class p) s <-> exists c, s = String c "" /\ p c = true.
Proof.
  split.
  - inversion 1; subst. eauto.
  - intros (c & -> & Hc). now constructor.
Qed.

Lemma matches_star_class (p : ascii -> bool) (s : string) :
  matches (Regex.Star (Regex.Class p)) s <-> all_chars p s = true.
Proof.
  split.
  - intros H. remember (Regex.Star (Regex.Class p)) as r eqn:Er.
    induction H as [| | | | | |a s1 s2 H1 _ H2 IH2]; try discriminate.
    + reflexivity.
    + inversion Er; subst a. apply matches_class_inv in H1.
      destruct H1 as (c & -> & Hc). simpl. rewrite Hc. now apply IH2.
  - induction s as [|c s IH]; simpl; intros H.
    + constructor.
    + apply andb_true_iff in H. destruct H as [Hc Hs].
      change (String c s) with (String c "" ++ s)%string.
      constructor; [now constructor|auto].
Qed.

Lemma matches_plus_class (p : ascii -> bool) (s : string) :
  matches (Regex.Plus (Regex.Class p)) s
  <-> s <> "" /\ all_chars p s = true.
Proof.
  unfold Regex.Plus. split.
  - inversion 1 as [| |a b s1 s2 H1 H2| | | |]; subst.
    apply matches_class_inv in H1. destruct H1 as (c & -> & Hc).
    apply matches_star_class in H2. simpl. rewrite Hc, H2.
    split; [discriminate|reflexivity].
  - intros [Hne H]. destruct s as [|c s]; [contradiction|].
    simpl in H. apply andb_true_iff in H. destruct H as [Hc Hs].
    change (String c s) with (String c "" ++ s)%string.
    constructor; [now constructor|now apply matches_star_class].
Qed.

Lemma matches_chr (a : ascii) (s : string) :
  matches (Regex.chr a) s <-> s = String a "".
Proof.
  unfold Regex.chr. rewrite matches_class_inv. split.
  - intros (c & -> & Hc). apply Ascii.eqb_eq in Hc. now subst.
  - intros ->. exists a. split; [trivial|apply Ascii.eqb_refl].
Qed.

Lemma matches_seq_inv (a b : Regex.re) (s : string) :
  matches (Regex.Seq a b) s
  <-> exists s1 s2, s = (s1 ++ s2)%string /\ matches a s1 /\ matches b s2.
Proof.
  split.
  - inversion 1; subst. eauto.
  - intros (s1 & s2 & -> & H1 & H2). now constructor.
Qed.

(** ** The format check *)

Lemma email_re_language (email : string) :
  isValidEmailFormat email = true
  <-> exists local d t,
        email = (local ++ "@" ++ d ++ "." ++ t)%string
        /\ email_part local /\ email_part d /\ email_part t.
Proof.
  unfold isValidEmailFormat, email_re, email_part.
  rewrite test_matches. split.
  - intros H.
    apply matches_seq_inv in H. destruct H as (l & r1 & -> & Hl & H).
    apply matches_seq_inv in H. destruct H as (at_ & r2 & -> & Hat & H).
    apply matches_seq_inv in H. destruct H as (d & r3 & -> & Hd & H).
    apply matches_seq_inv in H. destruct H as (dot & t & -> & Hdot & Ht).
    apply matches_chr in Hat, Hdot. subst at_ dot.
    apply matches_plus_class in Hl, Hd, Ht.
    exists l, d, t. auto.
  - intros (l & d & t & -> & Hl & Hd & Ht).
    apply matches_plus_class in Hl, Hd, Ht.
    apply matches_seq_inv. exists l, ("@" ++ d ++ "." ++ t)%string.
    split; [reflexivity|split; [exact Hl|]].
    apply matches_seq_inv. exists "@"%string, (d ++ "." ++ t)%string.
    split; [reflexivity|split; [now apply matches_chr|]].
    apply matches_seq_inv. exists d, ("." ++ t)%string.
    split; [reflexivity|split; [exact Hd|]].
    apply matches_seq_inv. exists "."%string, t.
    split; [reflexivity|split; [now apply matches_chr|exact Ht]].
Qed.

(** X2.  [isValidEmailFormat] accepts the strings [local@d.t] in which
    [local], [d] and [t] are non-empty and hold neither white space nor
    [@], and no other string. *)
Theorem isValidEmailFormat_shape (email : string) :
  isValidEmailFormat email = true
  <-> exists local d t,
        email = (local ++ "@" ++ d ++ "." ++ t)%string
        /\ email_part local /\ email_part d /\ email_part t.
Proof. apply email_re_language. Qed.

(** ** Splitting *)

Lemma split_not_nil (sep : ascii) (s : string) : split sep s <> [].
Proof.
  induction s as [|c s IH]; simpl; [discriminate|].
  destruct (Ascii.eqb c sep); [discriminate|].
  destruct (split sep s); discriminate.
Qed.

(** A string without the separator is the only piece. *)
Lemma split_no_sep (sep : ascii) (s : string) :
  all_chars (fun c => negb (Ascii.eqb c sep)) s = true ->
  split sep s = [s].
Proof.
  induction s as [|c s IH]; simpl; trivial.
  intros H. apply andb_true_iff in H. destruct H as [Hc Hs].
  apply negb_true_iff in Hc. rewrite Hc, (IH Hs). reflexivity.
Qed.

(** The first piece ends at the first separator. *)
Lemma split_first (sep : ascii) (s rest : string) :
  all_chars (fun c => negb (Ascii.eqb c sep)) s = true ->
  split sep (s ++ String sep rest) = s :: split sep rest.
Proof.
  induction s as [|c s IH]; simpl.
  - intros _. now rewrite Ascii.eqb_refl.
  - intros H. apply andb_true_iff in H. destruct H as [Hc Hs].
    apply negb_true_iff in Hc. rewrite Hc, (IH Hs). reflexivity.
Qed.

Lemma all_chars_impl (p q : ascii -> bool) (s : string) :
  (forall c, p c = true -> q c = true) ->
  all_chars p s = true -> all_chars q s = true.
Proof.
  intros Hpq. induction s as [|c s IH]; simpl; trivial.
  intros H. apply andb_true_iff in H. destruct H as [Hc Hs].
  now rewrite (Hpq c Hc), (IH Hs).
Qed.

Lemma email_char_not_at (c : ascii) :
  email_char c = true -> negb (Ascii.eqb c "@") = true.
Proof.
  unfold email_char. intros H. apply negb_true_iff, orb_false_iff in H.
  destruct H as [_ H]. now rewrite H.
Qed.

Lemma email_char_not_space (c : ascii) :
  email_char c = true -> negb (Ascii.eqb c " ") = true.
Proof.
  unfold email_char. intros H. apply negb_true_iff, orb_false_iff in H.
  destruct H as [H _]. apply negb_true_iff.
  destruct (Ascii.eqb_spec c " ") as [->|]; [discriminate H|reflexivity].
Qed.

(** X3.  For an email that passes the format check, [email.split("@")[1]]
    is the whole of what follows the only [@], it is not empty, and
    [domainHasMX] is true exactly when the resolver answers at least one
    record for it. *)
Theorem valid_email_domain_is_resolved (email : string) :
  isValidEmailFormat email = true ->
  exists local domain,
    email = (local ++ "@" ++ domain)%string
    /\ split "@" email = [local; domain]
    /\ domain <> ""
    /\ forall dns : resolver,
         domainHasMX dns email
         = match dns domain with
           | Some (_ :: _) => true
           | _ => false
           end.
Proof.
  intros H. apply email_re_language in H.
  destruct H as (l & d & t & -> & [Hl Hlc] & [Hd Hdc] & [Ht Htc]).
  exists l, (d ++ "." ++ t)%string.
  assert (Hsplit : split "@" (l ++ "@" ++ d ++ "." ++ t)
                   = [l; (d ++ "." ++ t)%string]).
  { change ("@" ++ d ++ "." ++ t)%string
      with (String "@" (d ++ "." ++ t))%string.
    rewrite split_first
      by (eapply all_chars_impl; [apply email_char_not_at|exact Hlc]).
    rewrite split_no_sep; trivial.
    rewrite all_chars_append. simpl. rewrite andb_true_iff. split.
    - eapply all_chars_impl; [apply email_char_not_at|exact Hdc].
    - eapply all_chars_impl; [apply email_char_not_at|exact Htc]. }
  assert (Hne : (d ++ "." ++ t)%string <> "").
  { intros E. apply append_eq_nil in E. now destruct E. }
  repeat split; trivial.
  intros dns. unfold domainHasMX. rewrite Hsplit. simpl.
  destruct (d ++ String "." t)%string as [|c s] eqn:E; [contradiction|].
  destruct (dns (String c s)) as [[|r rs]|]; reflexivity.
Qed.

Lemma valid_email_domain_is_resolved_witness :
  exists local domain,
    "s@x.com" = (local ++ "@" ++ domain)%string
    /\ split "@" "s@x.com" = [local; domain]
    /\ domain <> ""
    /\ forall dns : resolver,
         domainHasMX dns "s@x.com"
         = match dns domain with
           | Some (_ :: _) => true
           | _ => false
           end.
Proof. apply (valid_email_domain_is_resolved "s@x.com"). reflexivity. Defined.

(** ** The codes *)

Lemma string_of_list_ascii_length (l : list ascii) :
  String.length (string_of_list_ascii l) = List.length l.
Proof. induction l as [|c l IH]; simpl; [trivial|now rewrite IH]. Qed.

Lemma all_chars_of_list (p : ascii -> bool) (l : list ascii) :
  Forall (fun c => p c = true) l ->
  all_chars p (string_of_list_ascii l) = true.
Proof.
  induction 1 as [|c l Hc _ IH]; simpl; trivial. now rewrite Hc, IH.
Qed.

Lemma digit_is_digit (d : N) : is_digit (digit d) = true.
Proof.
  unfold is_digit, digit.
  assert (Hlt : (d mod 10 < 10)%N) by (apply N.mod_upper_bound; discriminate).
  set (k := (d mod 10)%N) in *.
  rewrite N_ascii_embedding by lia.
  cbv zeta. apply andb_true_iff. split; apply N.leb_le; lia.
Qed.

(** X1.  [generateOtp(n)] is a string of [n] decimal digits, whatever the
    random source. *)
Theorem generateOtp_digits (n : nat) (rnd : nat -> N) :
  String.length (generateOtp n rnd) = n
  /\ all_chars is_digit (generateOtp n rnd) = true.
Proof.
  unfold generateOtp. split.
  - now rewrite string_of_list_ascii_length, length_map, length_seq.
  - apply all_chars_of_list, Forall_map, Forall_forall.
    intros i _. apply digit_is_digit.
Qed.

(** ** Failures do not write *)



(** Without a secret the code that was sent is consumed and the user is
    written, and the client gets a 500. *)
Example verification_without_secret :
  verify_otp demo_unset 3000 (Some "s@x.com") (Some "111111") (JStr "sharer")
    st_issued
  = (uncaught,
     mk_state [mk_otp 1 "s@x.com" "111111" 601000 1]
       [mk_user "s@x.com" 1 (Some "sharer")] [] []
       [("s@x.com", "111111")]).
Proof. reflexivity. Qed.

(** ** From issuance to verification *)




(** ** Consumption *)

Lemma otp_ids_unique_step (t t' : list otp_row) :
  otps_step t t' -> otp_ids_unique t -> otp_ids_unique t'.
Proof.
  unfold otp_ids_unique. intros [|email code x _ _|id] H; trivial.
  - unfold insert_otp. rewrite map_app. simpl.
    apply NoDup_app; trivial.
    + constructor; [intros []|constructor].
    + intros i Hi [<-|[]]. apply next_id_fresh in Hi. lia.
  - now rewrite consume_otp_ids.
Qed.

(** The ids of [otps] are distinct in every state that the server
    reaches. *)
Lemma otp_ids_unique_run (cfg : config) (rqs : list (Z * request))
  (st : state) :
  otp_ids_unique (otps st) -> otp_ids_unique (otps (run cfg rqs st)).
Proof.
  revert st.
  induction rqs as [|[now rq] rqs IH]; intros st H; simpl; trivial.
  apply IH. eapply otp_ids_unique_step; [apply handle_otps|trivial].
Qed.

Lemma otp_ids_unique_reachable (cfg : config) (rqs : list (Z * request)) :
  otp_ids_unique (otps (run cfg rqs empty_state)).
Proof. apply otp_ids_unique_run. constructor. Qed.

(** X6.  With distinct ids, a [POST /verify-otp] that answers 200 rewrites
    one row of [otps], the unconsumed one it looked up, to [consumed = 1],
    and leaves every other row, and the order of the rows, as they were. *)
Theorem verification_consumes_one_record (cfg : config) (now : Z)
  (email otp : str_field) (role : jsval) (st st' : state) (resp : response) :
  otp_ids_unique (otps st) ->
  verify_otp cfg now email otp role st = (resp, st') ->
  status resp = 200 ->
  exists before record after,
    otps st = (before ++ record :: after)%list
    /\ otp_consumed record = 0
    /\ otp_email record = or_empty email
    /\ otp_code record = or_empty otp
    /\ otps st'
       = (before
          ++ mk_otp (otp_id record) (otp_email record) (otp_code record)
               (otp_expiresAt record) 1
          :: after)%list.
Proof.
  intros Hu H Hs.
  destruct (verify_otp_success _ _ _ _ _ _ _ _ H Hs)
    as (record & user & _ & _ & Hsel & _ & Hcode & -> & _ & _).
  pose proof (select_otp_pending _ _ _ Hsel) as (Hin & Hem & Hc).
  apply in_split in Hin. destruct Hin as (before & after & E).
  exists before, record, after. repeat split; trivial.
  simpl. rewrite E. unfold otp_ids_unique in Hu. rewrite E in Hu.
  rewrite map_app in Hu. simpl in Hu.
  pose proof (NoDup_remove_2 _ _ _ Hu) as Hnot.
  unfold consume_otp. rewrite map_app. simpl.
  fold (consume_otp before (otp_id record)).
  fold (consume_otp after (otp_id record)).
  rewrite !consume_otp_absent.
  - unfold consume. now rewrite Z.eqb_refl.
  - intros r Hr Hid. apply Hnot, in_or_app. right.
    rewrite <- Hid. now apply in_map.
  - intros r Hr Hid. apply Hnot, in_or_app. left.
    rewrite <- Hid. now apply in_map.
Qed.

Lemma verification_consumes_one_record_witness :
  exists before record after,
    otps st_reissued = (before ++ record :: after)%list
    /\ otp_consumed record = 0
    /\ otp_email record = "s@x.com"
    /\ otp_code record = "222222"
    /\ otps (snd (verify_otp demo 3000 (Some "s@x.com") (Some "222222")
                    (JStr "sharer") st_reissued))
       = (before
          ++ mk_otp (otp_id record) (otp_email record) (otp_code record)
               (otp_expiresAt record) 1
          :: after)%list.
Proof.
  apply (verification_consumes_one_record demo 3000 (Some "s@x.com")
           (Some "222222") (JStr "sharer") st_reissued
           (snd (verify_otp demo 3000 (Some "s@x.com") (Some "222222")
                   (JStr "sharer") st_reissued))
           (fst (verify_otp demo 3000 (Some "s@x.com") (Some "222222")
                   (JStr "sharer") st_reissued))).
  - unfold otp_ids_unique. simpl.
    constructor; [intros [H|[]]; discriminate|].
    constructor; [intros []|constructor].
  - reflexivity.
  - reflexivity.
Defined.

(** X7.  A wrong guess costs nothing: any sequence of calls of
    [POST /verify-otp] for an email with codes other than the one of its
    newest unconsumed record leaves the state as it was, so the right code is
    still accepted afterwards; the handler counts no attempts. *)
Theorem wrong_guesses_change_nothing (cfg : config)
  (rqs : list (Z * request)) (email : string) (record : otp_row)
  (st : state) :
  select_otp (otps st) email = Some record ->
  Forall (wrong_guess email (otp_code record)) rqs ->
  run cfg rqs st = st.
Proof.
  intros Hsel Hall.
  induction Hall as [|[now rq] rqs Hrq _ IH]; simpl; trivial.
  assert (E : snd (handle cfg now rq st) = st); [|now rewrite E].
  unfold wrong_guess in Hrq. simpl in Hrq.
  destruct rq as [| e otp role | | |]; try contradiction.
  destruct Hrq as [-> Hne]. simpl. unfold verify_otp.
  destruct (negb (truthy (Some email)) || negb (truthy otp)); trivial.
  cbn [or_empty]. rewrite Hsel.
  destruct (otp_expiresAt record <? now); trivial.
  apply String.eqb_neq in Hne. now rewrite Hne.
Qed.

Lemma wrong_guesses_change_nothing_witness :
  run demo
    [(3000, VerifyOtp (Some "s@x.com") (Some "000000") (JStr "sharer"));
     (3001, VerifyOtp (Some "s@x.com") (Some "000001") (JStr "sharer"));
     (3002, VerifyOtp (Some "s@x.com") None JNull)]
    st_issued
  = st_issued.
Proof.
  apply (wrong_guesses_change_nothing demo _ "s@x.com"
           (mk_otp 1 "s@x.com" "111111" 601000 0)); [reflexivity|].
  repeat constructor; discriminate.
Defined.

Lemma older_record_outlives_call_witness :
  In (mk_otp 1 "s@x.com" "111111" 601000 0)
    (otps (snd (verify_otp demo 3000 (Some "s@x.com") (Some "111111")
                  (JStr "sharer") st_reissued))).
Proof.
  apply (older_record_outlives_call demo 3000 "s@x.com" (Some "111111")
           (JStr "sharer") st_reissued
           (mk_otp 1 "s@x.com" "111111" 601000 0)
           (mk_otp 2 "s@x.com" "222222" 602000 0)).
  - left. reflexivity.
  - right. left. reflexivity.
  - reflexivity.
  - simpl. lia.
Defined.

(** ** Nothing is deleted *)

Lemma otps_step_issued (t t' : list otp_row) :
  otps_step t t' ->
  exists added, map otp_issued t' = (map otp_issued t ++ added)%list.
Proof.
  intros [|email code x _ _|id].
  - exists []. now rewrite app_nil_r.
  - unfold insert_otp. rewrite map_app. eauto.
  - exists []. rewrite app_nil_r. unfold consume_otp. rewrite map_map.
    apply map_ext. intros r. unfold consume, otp_issued.
    now destruct (otp_id r =? id).
Qed.

Lemma otps_step_consumed (t t' : list otp_row) (r : otp_row) :
  otps_step t t' -> In r t -> otp_consumed r = 1 ->
  In r t'.
Proof.
  intros [|email code x _ _|id] Hin Hc; trivial.
  - unfold insert_otp. apply in_or_app. now left.
  - unfold consume_otp. apply in_map_iff. exists r. split; trivial.
    unfold consume. destruct (otp_id r =? id); trivial.
    rewrite <- Hc. now destruct r.
Qed.

(** X8.  The OTP table is an audit trail: over any sequence of requests no
    row is deleted, reordered or given another id, email, code or expiry;
    rows are only added at the end, and a row that is consumed stays as it
    is. *)
Theorem otps_are_an_audit_trail (cfg : config) (rqs : list (Z * request))
  (st : state) :
  (exists added,
     map otp_issued (otps (run cfg rqs st))
     = (map otp_issued (otps st) ++ added)%list)
  /\ (forall r, In r (otps st) -> otp_consumed r = 1 ->
        In r (otps (run cfg rqs st))).
Proof.
  revert st. induction rqs as [|[now rq] rqs IH]; intros st; simpl.
  - split; [exists []; now rewrite app_nil_r|trivial].
  - destruct (IH (snd (handle cfg now rq st))) as [(added & E) Hkeep].
    pose proof (handle_otps cfg now rq st) as Hstep. split.
    + destruct (otps_step_issued _ _ Hstep) as (added0 & E0).
      exists (added0 ++ added)%list. now rewrite E, E0, app_assoc.
    + intros r Hin Hc. apply Hkeep; trivial.
      now apply (otps_step_consumed _ _ _ Hstep).
Qed.

(** X9.  The location history is append-only: over any sequence of requests
    the rows that were there stay, unchanged and in place, before the rows
    that are added. *)
Theorem locations_are_append_only (cfg : config) (rqs : list (Z * request))
  (st : state) :
  exists added, locations (run cfg rqs st) = (locations st ++ added)%list.
Proof.
  revert st. induction rqs as [|[now rq] rqs IH]; intros st; simpl.
  - exists []. now rewrite app_nil_r.
  - destruct (IH (snd (handle cfg now rq st))) as (added & E).
    destruct (handle_locations cfg now rq st) as [E0|(e & lat & lng & E0)];
      rewrite E, E0.
    + eauto.
    + unfold insert_location. rewrite <- app_assoc. eauto.
Qed.

(** ** The users table in the states that the server reaches *)

Lemma select_user_none (t : list user_row) (email : string) :
  select_user t email = None -> ~ In email (map usr_email t).
Proof.
  unfold select_user. intros H Hin.
  apply in_map_iff in Hin. destruct Hin as (u & <- & Hu).
  pose proof (find_none _ _ H u Hu) as E. simpl in E.
  now rewrite String.eqb_refl in E.
Qed.

Lemma select_user_In (t : list user_row) (email : string) (u : user_row) :
  select_user t email = Some u -> In u t.
Proof. unfold select_user. intros H. now apply find_some in H. Qed.

(** On a well-formed table a verification adds the user or changes
    nothing. *)
Lemma upsert_user_wellformed (email : string) (role : jsval)
  (t : list user_row) :
  users_wellformed t ->
  users_wellformed (upsert_user email role t)
  /\ (forall u, select_user t email = Some u -> upsert_user email role t = t).
Proof.
  intros [Hnd Hall]. unfold upsert_user.
  destruct (select_user t email) as [u|] eqn:E.
  - destruct (Hall u (select_user_In _ _ _ E)) as [Hv Hr].
    rewrite Hv. simpl.
    assert (Ht : truthy (usr_role u) = true)
      by (destruct Hr as [-> | ->]; reflexivity).
    rewrite Ht. simpl. split; [now split|trivial].
  - split; [|discriminate]. unfold insert_user. split.
    + rewrite map_app. simpl. apply NoDup_app; trivial.
      * constructor; [intros []|constructor].
      * intros e He [<-|[]]. now apply (select_user_none _ _ E).
    + intros u Hin. apply in_app_or in Hin.
      destruct Hin as [Hin|[<-|[]]]; [auto|]. simpl. split; trivial.
      unfold finalRole. destruct (strict_eq_str role "viewer"); auto.
Qed.

Lemma users_wellformed_step (t t' : list user_row) :
  users_step t t' -> users_wellformed t -> users_wellformed t'.
Proof.
  intros [|email role] H; trivial. now apply upsert_user_wellformed.
Qed.

Lemma users_wellformed_run (cfg : config) (rqs : list (Z * request))
  (st : state) :
  users_wellformed (users st) -> users_wellformed (users (run cfg rqs st)).
Proof.
  revert st.
  induction rqs as [|[now rq] rqs IH]; intros st H; simpl; trivial.
  apply IH. eapply users_wellformed_step; [apply handle_users|trivial].
Qed.

(** X10.  In every state that the server reaches from the empty database
    the emails of [users] are distinct, so that the [INSERT] of
    [POST /verify-otp] never meets the [UNIQUE] constraint, and every user
    is verified with the role ['viewer'] or ['sharer']. *)
Theorem users_stay_wellformed (cfg : config) (rqs : list (Z * request)) :
  users_wellformed (users (run cfg rqs empty_state)).
Proof.
  apply users_wellformed_run. split; [constructor|intros u []].
Qed.

(** X11.  On such a table a [POST /verify-otp] that answers 200 signs and
    answers the role ['viewer'] or ['sharer']; when the user existed, the
    table is not written and the role is the stored one, whatever the
    [role] field of the request. *)
Theorem verified_role_is_viewer_or_sharer (cfg : config) (now : Z)
  (email otp : str_field) (role : jsval) (st st' : state) (resp : response) :
  users_wellformed (users st) ->
  verify_otp cfg now email otp role st = (resp, st') ->
  status resp = 200 ->
  exists r,
    (r = "viewer" \/ r = "sharer")
    /\ (exists token,
          jwt_sign cfg (mk_claims (or_empty email) (Some r))
            (JWT_SECRET cfg) expiresIn_7d now
          = Some token
          /\ resp = ok (RVerified token (or_empty email) (Some r)))
    /\ (forall u, select_user (users st) (or_empty email) = Some u ->
          users st' = users st /\ usr_role u = Some r).
Proof.
  intros Hwf H Hs.
  destruct (verify_otp_success _ _ _ _ _ _ _ _ H Hs)
    as (record & user & _ & _ & _ & _ & _ & Hst & Hu & Hresp).
  destruct (upsert_user_wellformed (or_empty email) role (users st) Hwf)
    as [[_ Hall] Hsame].
  assert (Eu : users st' = upsert_user (or_empty email) role (users st))
    by (subst st'; reflexivity).
  rewrite Eu in Hu.
  destruct (Hall user (select_user_In _ _ _ Hu)) as [_ Hr].
  pose proof (select_user_email _ _ _ Hu) as He.
  assert (exists r, (r = "viewer" \/ r = "sharer") /\ usr_role user = Some r)
    as (r & Hr' & Er) by (destruct Hr as [Hr|Hr]; eauto).
  exists r. split; [trivial|split].
  - destruct Hresp as (token & Hsign & ->). exists token.
    unfold signToken in Hsign. rewrite He, Er in Hsign.
    split; [exact Hsign|]. now rewrite Er.
  - intros u Hsel. rewrite Eu, (Hsame u Hsel). split; trivial.
    rewrite (Hsame u Hsel) in Hu. congruence.
Qed.

Lemma verified_role_is_viewer_or_sharer_witness :
  exists r,
    (r = "viewer" \/ r = "sharer")
    /\ (exists token,
          jwt_sign demo (mk_claims "s@x.com" (Some r))
            (JWT_SECRET demo) expiresIn_7d 3000
          = Some token
          /\ fst (verify_otp demo 3000 (Some "s@x.com") (Some "111111")
                    (JStr "admin") st_issued)
             = ok (RVerified token "s@x.com" (Some r)))
    /\ (forall u, select_user (users st_issued) "s@x.com" = Some u ->
          users (snd (verify_otp demo 3000 (Some "s@x.com") (Some "111111")
                        (JStr "admin") st_issued))
          = users st_issued
          /\ usr_role u = Some r).
Proof.
  apply (verified_role_is_viewer_or_sharer demo 3000 (Some "s@x.com")
           (Some "111111") (JStr "admin") st_issued
           (snd (verify_otp demo 3000 (Some "s@x.com") (Some "111111")
                   (JStr "admin") st_issued))
           (fst (verify_otp demo 3000 (Some "s@x.com") (Some "111111")
                   (JStr "admin") st_issued))).
  - split; [constructor|intros u []].
  - reflexivity.
  - reflexivity.
Defined.

(** ** Rows of an older schema *)

Lemma upsert_user_frame (email email' : string) (role : jsval)
  (t : list user_row) :
  email' <> email ->
  select_user (upsert_user email role t) email' = select_user t email'.
Proof.
  intros Hne.
  destruct (select_user t email') as [u|] eqn:E.
  - now apply upsert_user_other.
  - unfold upsert_user.
    destruct (select_user t email) as [v|].
    + assert (H1 : select_user
                     (if usr_is_verified v =? 0
                      then update_users set_verified email t else t) email'
                   = None).
      { destruct (usr_is_verified v =? 0); trivial.
        rewrite select_user_update by reflexivity. now rewrite E. }
      destruct (negb (truthy (usr_role v))); trivial.
      rewrite select_user_update by reflexivity. now rewrite H1.
    + unfold insert_user. rewrite select_user_app_none by trivial. simpl.
      destruct (String.eqb_spec email email'); congruence.
Qed.

(** X12.  Whatever row the user had, a missing one, an unverified one or
    one without a role, after a [POST /verify-otp] that answers 200 the row
    that [SELECT * FROM users WHERE email = ?] returns for the email is
    verified and has a role, and the rows that it returns for the other
    emails are the ones it returned before. *)
Theorem verification_completes_the_user (cfg : config) (now : Z)
  (email otp : str_field) (role : jsval) (st st' : state) (resp : response) :
  verify_otp cfg now email otp role st = (resp, st') ->
  status resp = 200 ->
  (exists user,
     select_user (users st') (or_empty email) = Some user
     /\ usr_is_verified user <> 0
     /\ truthy (usr_role user) = true)
  /\ (forall other, other <> or_empty email ->
        select_user (users st') other = select_user (users st) other).
Proof.
  intros H Hs.
  destruct (verify_otp_success _ _ _ _ _ _ _ _ H Hs)
    as (record & user & _ & _ & _ & _ & _ & Hst & _ & _).
  assert (Eu : users st' = upsert_user (or_empty email) role (users st))
    by (subst st'; reflexivity).
  rewrite Eu. clear H Hs Hst Eu. set (e := or_empty email).
  set (t := users st). split.
  - destruct (select_user t e) as [u|] eqn:E.
    + pose proof (select_user_email _ _ _ E) as He.
      unfold upsert_user. rewrite E.
      assert (H1 : exists v,
                 select_user
                   (if usr_is_verified u =? 0
                    then update_users set_verified e t else t) e = Some v
                 /\ usr_email v = e /\ usr_is_verified v <> 0
                 /\ usr_role v = usr_role u).
      { destruct (usr_is_verified u =? 0) eqn:Ev.
        - rewrite select_user_update by reflexivity. rewrite E. simpl.
          rewrite He, String.eqb_refl. eexists. repeat split; trivial.
          simpl. discriminate.
        - exists u. repeat split; trivial. now apply Z.eqb_neq. }
      destruct H1 as (v & Hv & Hve & Hvv & Hvr).
      destruct (truthy (usr_role u)) eqn:Et; simpl.
      * exists v. repeat split; trivial. now rewrite Hvr.
      * rewrite select_user_update by reflexivity. rewrite Hv. simpl.
        rewrite Hve, String.eqb_refl. eexists. repeat split; trivial.
        simpl. apply finalRole_truthy.
    + rewrite upsert_user_creates by trivial. eexists. repeat split.
      * simpl. discriminate.
      * simpl. apply finalRole_truthy.
  - intros other Hne. now apply upsert_user_frame.
Qed.

Lemma verification_completes_the_user_witness :
  exists user,
    select_user
      (users (snd (verify_otp demo 3000 (Some "s@x.com") (Some "111111")
                     (JStr "viewer")
                     (set_users st_issued [mk_user "s@x.com" 0 None]))))
      "s@x.com"
    = Some user
    /\ usr_is_verified user <> 0
    /\ truthy (usr_role user) = true.
Proof.
  apply (verification_completes_the_user demo 3000 (Some "s@x.com")
           (Some "111111") (JStr "viewer")
           (set_users st_issued [mk_user "s@x.com" 0 None])
           (snd (verify_otp demo 3000 (Some "s@x.com") (Some "111111")
                   (JStr "viewer")
                   (set_users st_issued [mk_user "s@x.com" 0 None])))
           (fst (verify_otp demo 3000 (Some "s@x.com") (Some "111111")
                   (JStr "viewer")
                   (set_users st_issued [mk_user "s@x.com" 0 None])))
           eq_refl eq_refl).
Defined.

(** ** Who can read what *)

Lemma has_permission_true (t : list perm_row) (viewer sharer : string) :
  has_permission t viewer sharer = true
  <-> exists r,
        In r t /\ perm_viewer r = viewer /\ perm_sharer r = sharer
        /\ perm_granted r = 1.
Proof.
  unfold has_permission. rewrite existsb_exists.
  split; intros (r & Hin & H); exists r; (split; [trivial|]).
  - apply andb_true_iff in H. destruct H as [Hk Hg].
    apply perm_key_true in Hk. inversion Hk.
    apply Z.eqb_eq in Hg. auto.
  - destruct H as (Hv & Hs & Hg).
    apply andb_true_iff. split; [|now apply Z.eqb_eq].
    apply perm_key_true. congruence.
Qed.

(** The upsert takes no grant away. *)
Lemma upsert_permission_keeps (t : list perm_row) (v s v' s' : string) :
  has_permission t v' s' = true ->
  has_permission (upsert_permission t v s) v' s' = true.
Proof.
  rewrite !has_permission_true. intros (r & Hin & Hv & Hs & Hg).
  unfold upsert_permission. destruct (existsb (perm_key v s) t).
  - exists (if perm_key v s r then set_granted r else r). split.
    + apply in_map_iff. eauto.
    + destruct (perm_key v s r); simpl; auto.
  - exists r. split; [apply in_or_app; now left|auto].
Qed.

(** The upsert gives a grant to its pair only. *)
Lemma upsert_permission_other (t : list perm_row) (v s v' s' : string) :
  (v', s') <> (v, s) ->
  has_permission (upsert_permission t v s) v' s' = true ->
  has_permission t v' s' = true.
Proof.
  intros Hne. rewrite !has_permission_true.
  intros (r' & Hin & Hv & Hs & Hg).
  unfold upsert_permission in Hin.
  destruct (existsb (perm_key v s) t).
  - apply in_map_iff in Hin. destruct Hin as (r & Er & Hin).
    destruct (perm_key v s r) eqn:Ek.
    + exfalso. apply Hne. apply perm_key_true in Ek.
      subst r'. simpl in Hv, Hs. congruence.
    + subst r'. eauto.
  - apply in_app_or in Hin. destruct Hin as [Hin|[<-|[]]]; [eauto|].
    simpl in Hv, Hs. exfalso. apply Hne. congruence.
Qed.

(** X13.  A grant is never taken away: once a viewer may read a sharer, the
    viewer may read that sharer after any sequence of requests. *)
Theorem grants_are_never_revoked (cfg : config) (rqs : list (Z * request))
  (st : state) (viewer sharer : string) :
  has_permission (permissions st) viewer sharer = true ->
  has_permission (permissions (run cfg rqs st)) viewer sharer = true.
Proof.
  revert st.
  induction rqs as [|[now rq] rqs IH]; intros st H; simpl; trivial.
  apply IH.
  destruct (handle_permissions cfg now rq st) as [->|(v & s & ->)]; trivial.
  now apply upsert_permission_keeps.
Qed.

Lemma grants_are_never_revoked_witness :
  has_permission
    (permissions
       (run demo
          [(8000, GrantPermission (Some "Bearer ss@x.com") (Some "w@z.org"));
           (9000, RequestOtp dns_up ones (MailInfo []) (Some "v@y.com"))]
          st_granted))
    "v@y.com" "s@x.com"
  = true.
Proof.
  apply (grants_are_never_revoked demo _ st_granted "v@y.com" "s@x.com").
  reflexivity.
Defined.

(** X14.  Only the sharer gives access to the sharer's locations: when a
    request turns the permission of a viewer for a sharer from absent to
    present, it is a [POST /permissions/grant] naming that viewer, with a
    token that verifies with the sharer's email and the role ['sharer']. *)
Theorem only_the_sharer_grants (cfg : config) (now : Z) (rq : request)
  (st : state) (viewer sharer : string) :
  has_permission (permissions st) viewer sharer = false ->
  has_permission (permissions (snd (handle cfg now rq st))) viewer sharer
  = true ->
  exists authorization user,
    rq = GrantPermission authorization (Some viewer)
    /\ authMiddleware cfg now authorization = inr user
    /\ tok_email user = sharer
    /\ role_is user "sharer" = true.
Proof.
  intros Hno Hyes.
  destruct rq as [dns rnd mail email|email otp role|a b|a e|a v];
    simpl in Hyes.
  - exfalso. revert Hyes. unfold request_otp.
    destruct (negb (truthy email)); simpl; [congruence|].
    destruct (negb (isValidEmailFormat _)); simpl; [congruence|].
    destruct (negb (domainHasMX _ _)); simpl; [congruence|].
    destruct (delivered mail); simpl; congruence.
  - exfalso. revert Hyes. unfold verify_otp.
    destruct (negb (truthy email) || negb (truthy otp)); simpl; [congruence|].
    destruct (select_otp _ _) as [record|]; simpl; [|congruence].
    destruct (otp_expiresAt record <? now); simpl; [congruence|].
    destruct (negb _); simpl; [congruence|].
    destruct (select_user _ _) as [u|]; simpl; [|congruence].
    destruct (signToken _ _ _); simpl; congruence.
  - exfalso. revert Hyes. unfold post_location.
    destruct (authMiddleware cfg now a) as [r|user]; simpl; [congruence|].
    destruct (negb _); simpl; [congruence|].
    destruct (typeof_number _); simpl; [|congruence].
    destruct (typeof_number _); simpl; congruence.
  - exfalso. rewrite get_location_state in Hyes. congruence.
  - revert Hyes. unfold grant_permission.
    destruct (authMiddleware cfg now a) as [r|user] eqn:Ea; simpl;
      [congruence|].
    destruct (role_is user "sharer") eqn:Er; simpl; [|congruence].
    destruct (truthy v) eqn:Ev; simpl; [|congruence].
    intros Hyes.
    destruct (string_dec viewer (or_empty v)) as [Hv|Hv];
      [destruct (string_dec sharer (tok_email user)) as [Hs|Hs]|].
    + exists a, user. repeat split; auto.
      f_equal. destruct v as [s|]; [simpl in Hv; congruence|discriminate].
    + apply upsert_permission_other in Hyes; congruence.
    + apply upsert_permission_other in Hyes; congruence.
Qed.

Lemma only_the_sharer_grants_witness :
  exists authorization user,
    GrantPermission (Some "Bearer ss@x.com") (Some "v@y.com")
    = GrantPermission authorization (Some "v@y.com")
    /\ authMiddleware demo 7000 authorization = inr user
    /\ tok_email user = "s@x.com"
    /\ role_is user "sharer" = true.
Proof.
  apply (only_the_sharer_grants demo 7000
           (GrantPermission (Some "Bearer ss@x.com") (Some "v@y.com"))
           st_located "v@y.com" "s@x.com"); reflexivity.
Defined.

(** ** The location that is fetched *)

(** X15.  For a viewer with a grant, [GET /locations/:email] answers 404
    [no_location_found] exactly when the sharer has no row; otherwise it
    answers a row of the sharer that no row of the sharer follows in the
    order of timestamps, then ids.  No clock is assumed. *)
Theorem fetched_location_is_the_latest (cfg : config) (now : Z)
  (authorization : str_field) (viewer : claims) (sharerEmail : string)
  (st : state) :
  authMiddleware cfg now authorization = inr viewer ->
  role_is viewer "viewer" = true ->
  has_permission (permissions st) (tok_email viewer) sharerEmail = true ->
  ((forall r, In r (locations st) -> loc_email r <> sharerEmail)
   /\ get_location cfg now authorization sharerEmail st
      = (error 404 "no_location_found", st))
  \/ exists best,
       In best (locations st)
       /\ loc_email best = sharerEmail
       /\ (forall r, In r (locations st) -> loc_email r = sharerEmail ->
             loc_le r best)
       /\ get_location cfg now authorization sharerEmail st
          = (ok (RLocation sharerEmail (loc_lat best) (loc_lng best)
                   (loc_updatedAt best)), st).
Proof.
  intros Ha Hr Hp. unfold get_location. rewrite Ha, Hr, Hp. simpl.
  unfold select_latest.
  destruct (top_by loc_older _) as [best|] eqn:E.
  - right. exists best.
    pose proof (top_by_In _ _ _ E) as Hin. apply filter_In in Hin.
    destruct Hin as [Hin He]. apply String.eqb_eq in He.
    apply keep_top_fold_latest in E. destruct E as [Hmax _].
    repeat split; trivial.
    + intros r Hr' Hre. apply Hmax, filter_In. split; trivial.
      now apply String.eqb_eq.
    + now rewrite He.
  - left. split; trivial. apply top_by_none in E.
    intros r Hin He.
    assert (Hf : In r (filter (fun r => String.eqb (loc_email r) sharerEmail)
                         (locations st))).
    { apply filter_In. split; trivial. now apply String.eqb_eq. }
    rewrite E in Hf. destruct Hf.
Qed.

Lemma fetched_location_is_the_latest_witness :
  get_location demo 9000 (Some "Bearer vv@y.com") "s@x.com" st_granted
  = (ok (RLocation "s@x.com" ten twenty 6), st_granted).
Proof.
  destruct (fetched_location_is_the_latest demo 9000 (Some "Bearer vv@y.com")
              (mk_claims "v@y.com" (Some "viewer")) "s@x.com" st_granted
              eq_refl eq_refl eq_refl)
    as [[Hnone _]|(best & Hin & _ & _ & H)].
  - exfalso. apply (Hnone (mk_loc 1 "s@x.com" ten twenty 6));
      [left|]; reflexivity.
  - destruct Hin as [<-|[]]. exact H.
Defined.

(** ** The bearer token *)

(** X16.  The middleware takes the second of the words of the header that
    single spaces separate, and does not look at the first: a header of one
    word, such as the token alone, is answered [missing_token], and
    [scheme token] is verified as [token] whatever [scheme] is, even
    empty. *)
Theorem authMiddleware_reads_second_word (cfg : config) (now : Z)
  (scheme token : string) :
  word scheme = true ->
  word token = true ->
  token <> "" ->
  authMiddleware cfg now None = inl (error 401 "missing_token")
  /\ authMiddleware cfg now (Some scheme) = inl (error 401 "missing_token")
  /\ authMiddleware cfg now (Some (scheme ++ " " ++ token)%string)
     = match jwt_verify cfg token (JWT_SECRET cfg) now with
       | Some payload => inr payload
       | None => inl (error 401 "invalid_token")
       end.
Proof.
  intros Hs Ht Hne. unfold authMiddleware. split; [reflexivity|split].
  - simpl. now rewrite (split_no_sep " " scheme Hs).
  - simpl or_empty.
    change (" " ++ token)%string with (String " " token).
    rewrite (split_first " " scheme token Hs).
    rewrite (split_no_sep " " token Ht). simpl.
    destruct token; [contradiction|reflexivity].
Qed.

Lemma authMiddleware_reads_second_word_witness :
  authMiddleware demo 5000 (Some "ss@x.com")
  = inl (error 401 "missing_token")
  /\ authMiddleware demo 5000 (Some "Basic ss@x.com")
     = inr (mk_claims "s@x.com" (Some "sharer")).
Proof.
  destruct (authMiddleware_reads_second_word demo 5000 "Basic" "ss@x.com"
              eq_refl eq_refl) as (_ & _ & H); [discriminate|].
  destruct (authMiddleware_reads_second_word demo 5000 "ss@x.com" "x"
              eq_refl eq_refl) as (_ & H' & _); [discriminate|].
  split; [exact H'|exact H].
Defined.

(** ** The error codes that a client sees *)

Ltac in_table := simpl; repeat (first [left; reflexivity | right]).

Lemma authMiddleware_answer (cfg : config) (now : Z) (a : str_field)
  (r : response) :
  authMiddleware cfg now a = inl r -> answer_ok r.
Proof.
  unfold authMiddleware.
  destruct (nth_error _ 1) as [[|c t]|];
    [intros H; inversion H; unfold answer_ok; in_table| |
     intros H; inversion H; unfold answer_ok; in_table].
  destruct (jwt_verify _ _ _ _); intros H; inversion H.
  unfold answer_ok. in_table.
Qed.

Lemma handle_answer (cfg : config) (now : Z) (rq : request) (st : state) :
  answer_ok (fst (handle cfg now rq st)).
Proof.
  destruct rq as [dns rnd mail email|email otp role|a b|a e|a v]; simpl.
  - unfold request_otp.
    destruct (negb (truthy email)); [unfold answer_ok; in_table|].
    destruct (negb (isValidEmailFormat _)); [unfold answer_ok; in_table|].
    destruct (negb (domainHasMX _ _)); [unfold answer_ok; in_table|].
    destruct (delivered mail); unfold answer_ok; [reflexivity|in_table].
  - unfold verify_otp.
    destruct (negb (truthy email) || negb (truthy otp));
      [unfold answer_ok; in_table|].
    destruct (select_otp _ _) as [record|]; [|unfold answer_ok; in_table].
    destruct (otp_expiresAt record <? now); [unfold answer_ok; in_table|].
    destruct (negb (String.eqb _ _)); [unfold answer_ok; in_table|].
    destruct (upsert_user_selects (or_empty email) role (users st)) as [u Hu].
    simpl. rewrite Hu. destruct (signToken cfg now u); reflexivity.
  - unfold post_location.
    destruct (authMiddleware cfg now a) as [r|user] eqn:Ea;
      [now apply (authMiddleware_answer cfg now a)|].
    destruct (negb _); [unfold answer_ok; in_table|].
    destruct (typeof_number _); [|unfold answer_ok; in_table].
    destruct (typeof_number _); unfold answer_ok; [reflexivity|in_table].
  - unfold get_location.
    destruct (authMiddleware cfg now a) as [r|user] eqn:Ea;
      [now apply (authMiddleware_answer cfg now a)|].
    destruct (negb _); [unfold answer_ok; in_table|].
    destruct (negb _); [unfold answer_ok; in_table|].
    destruct (select_latest _ _); unfold answer_ok; [reflexivity|in_table].
  - unfold grant_permission.
    destruct (authMiddleware cfg now a) as [r|user] eqn:Ea;
      [now apply (authMiddleware_answer cfg now a)|].
    destruct (negb _); [unfold answer_ok; in_table|].
    destruct (negb _); unfold answer_ok; [in_table|reflexivity].
Qed.



(** X18.  Of the reasons that the server answers, the front end's
    [getFriendlyError] has no message for six, the two of the token, the
    three of the roles and [lat_and_lng_required], and shows them as they
    are; for the eleven others it shows a text that is not the code. *)
Theorem unmapped_server_errors (cfg : config) (now : Z) (rq : request)
  (st : state) (reason : string) :
  body (fst (handle cfg now rq st)) = RError reason ->
  (In reason shown_raw /\ getFriendlyError (Some reason) = reason)
  \/ (~ In reason shown_raw /\ getFriendlyError (Some reason) <> reason).
Proof.
  intros Hb. pose proof (handle_answer cfg now rq st) as H.
  unfold answer_ok in H. rewrite Hb in H. clear Hb.
  set (s := status (fst (handle cfg now rq st))) in *. clearbody s.
  simpl in H.
  repeat (destruct H as [H|H];
          [inversion H; subst reason; clear H;
           first [left; split; [in_table|reflexivity]
                 |right; split;
                  [simpl; intros Hin;
                   repeat (destruct Hin as [Hin|Hin]; [discriminate Hin|]);
                   exact Hin
                  |vm_compute; discriminate]]|]).
  destruct H.
Qed.

Lemma unmapped_server_errors_witness :
  getFriendlyError (Some "missing_token") = "missing_token".
Proof.
  destruct (unmapped_server_errors demo 5000
              (PostLocation None []) empty_state "missing_token" eq_refl)
    as [[_ H]|[Hn _]]; [exact H|].
  exfalso. apply Hn. left. reflexivity.
Defined.

(** ** Roles are exclusive *)

(** X19.  A token has one role.  With a token that may post and grant,
    [GET /locations/:email] answers [only_viewers_can_fetch] for every
    email, the sharer's own included, whatever grants exist; with a token
    that may fetch, [POST /locations] and [POST /permissions/grant] answer
    [only_sharers_can_post] and [only_sharers_can_grant]; the state is
    unchanged. *)
Theorem roles_are_exclusive (cfg : config) (now : Z)
  (authorization : str_field) (user : claims) (st : state) :
  authMiddleware cfg now authorization = inr user ->
  (role_is user "sharer" = true ->
   forall email,
     get_location cfg now authorization email st
     = (error 403 "only_viewers_can_fetch", st))
  /\ (role_is user "viewer" = true ->
      (forall req_body,
         post_location cfg now authorization req_body st
         = (error 403 "only_sharers_can_post", st))
      /\ (forall viewerEmail,
            grant_permission cfg now authorization viewerEmail st
            = (error 403 "only_sharers_can_grant", st))).
Proof.
  intros Ha.
  assert (Hx : forall a b, a <> b -> role_is user a = true ->
                 role_is user b = false).
  { unfold role_is. intros a b Hab. destruct (tok_role user) as [r|]; trivial.
    intros H. apply String.eqb_eq in H. subst r.
    now apply String.eqb_neq. }
  split.
  - intros Hs email. unfold get_location. rewrite Ha.
    now rewrite (Hx "sharer" "viewer") by (trivial || discriminate).
  - intros Hv. split.
    + intros req_body. unfold post_location. rewrite Ha.
      now rewrite (Hx "viewer" "sharer") by (trivial || discriminate).
    + intros viewerEmail. unfold grant_permission. rewrite Ha.
      now rewrite (Hx "viewer" "sharer") by (trivial || discriminate).
Qed.

Lemma roles_are_exclusive_witness :
  get_location demo 9000 (Some "Bearer ss@x.com") "s@x.com" st_granted
  = (error 403 "only_viewers_can_fetch", st_granted)
  /\ post_location demo 9000 (Some "Bearer vv@y.com")
       [("lat", JNum ten); ("lng", JNum twenty)] st_granted
     = (error 403 "only_sharers_can_post", st_granted).
Proof.
  split.
  - destruct (roles_are_exclusive demo 9000 (Some "Bearer ss@x.com")
                (mk_claims "s@x.com" (Some "sharer")) st_granted eq_refl)
      as [H _].
    apply H. reflexivity.
  - destruct (roles_are_exclusive demo 9000 (Some "Bearer vv@y.com")
                (mk_claims "v@y.com" (Some "viewer")) st_granted eq_refl)
      as [_ H].
    apply H. reflexivity.
Defined.

Lemma generateOtp_length_digits (rnd : nat -> N) :
  String.length (generateOtp 6 rnd) = 6%nat
  /\ all_chars is_digit (generateOtp 6 rnd) = true.
Proof.
  unfold generateOtp. split.
  - reflexivity.
  - apply all_chars_of_list, Forall_map, Forall_forall.
    intros i _. apply digit_is_digit.
Qed.

(** ** More on the states that the server reaches *)

Lemma handle_otp_rows (cfg : config) (now : Z) (rq : request) (st : state) :
  Forall otp_row_ok (otps st) ->
  Forall otp_row_ok (otps (snd (handle cfg now rq st))).
Proof.
  intros H.
  destruct rq as [dns rnd mail email|email otp role|a b|a e|a v]; simpl.
  - unfold request_otp.
    destruct (truthy email) eqn:He; simpl; trivial.
    destruct (isValidEmailFormat _) eqn:Hf; simpl; trivial.
    destruct (domainHasMX _ _); simpl; trivial.
    assert (Forall otp_row_ok
              (insert_otp (otps st) (or_empty email) (generateOtp 6 rnd)
                 (now + OTP_TTL cfg * 1000))).
    { unfold insert_otp. apply Forall_app. split; trivial.
      constructor; [|constructor].
      destruct (generateOtp_length_digits rnd) as [Hl Hd].
      repeat split; simpl; auto. }
    now destruct (delivered mail).
  - unfold verify_otp.
    destruct (negb (truthy email) || negb (truthy otp)); simpl; trivial.
    destruct (select_otp _ _) as [record|]; simpl; trivial.
    destruct (otp_expiresAt record <? now); simpl; trivial.
    destruct (negb _); simpl; trivial.
    assert (Forall otp_row_ok (consume_otp (otps st) (otp_id record))).
    { unfold consume_otp. apply Forall_map.
      eapply Forall_impl; [|exact H].
      intros r (H1 & H2 & H3 & H4). unfold consume.
      destruct (otp_id r =? otp_id record); repeat split; simpl; auto. }
    destruct (select_user _ _) as [u|]; [|trivial].
    now destruct (signToken _ _ _).
  - now rewrite post_location_otps.
  - now rewrite get_location_state.
  - now rewrite grant_permission_otps.
Qed.

(** X20.  In every state that the server reaches from the empty database,
    each OTP row carries an email that passed the format check and a code
    of six decimal digits, its [consumed] flag is 0 or 1, and the ids are
    distinct. *)
Theorem otp_rows_stay_wellformed (cfg : config) (rqs : list (Z * request)) :
  Forall otp_row_ok (otps (run cfg rqs empty_state))
  /\ NoDup (map otp_id (otps (run cfg rqs empty_state))).
Proof.
  split; [|apply (otp_ids_unique_run cfg rqs empty_state); constructor].
  assert (H : forall st, Forall otp_row_ok (otps st) ->
                Forall otp_row_ok (otps (run cfg rqs st))).
  { induction rqs as [|[now rq] rqs IH]; intros st H; simpl; trivial.
    apply IH. now apply handle_otp_rows. }
  apply H. constructor.
Qed.

Lemma stamped_by_reachable_witness :
  stamped_by (locations (run demo scenario empty_state)) 5000.
Proof.
  apply (stamped_by_reachable demo scenario). simpl. lia.
Defined.

(** X23.  Each handler writes its own tables only: [POST /request-otp]
    leaves the users, the locations and the grants; [POST /verify-otp] the
    locations, the grants and the mail; [POST /locations] all but the
    locations; [POST /permissions/grant] all but the grants;
    [GET /locations/:email] everything. *)
Theorem handlers_write_their_own_tables (cfg : config) (now : Z)
  (rq : request) (st : state) :
  writes_only rq st (snd (handle cfg now rq st)).
Proof.
  destruct rq as [dns rnd mail email|email otp role|a b|a e|a v]; simpl.
  - unfold request_otp.
    destruct (negb (truthy email)); simpl; auto.
    destruct (negb (isValidEmailFormat _)); simpl; auto.
    destruct (negb (domainHasMX _ _)); simpl; auto.
    destruct (delivered mail); simpl; auto.
  - unfold verify_otp.
    destruct (negb (truthy email) || negb (truthy otp)); simpl; auto.
    destruct (select_otp _ _) as [record|]; simpl; auto.
    destruct (otp_expiresAt record <? now); simpl; auto.
    destruct (negb _); simpl; auto.
    destruct (select_user _ _) as [u|]; simpl; auto.
    destruct (signToken _ _ _); simpl; auto.
  - unfold post_location.
    destruct (authMiddleware cfg now a) as [r|user]; simpl; auto.
    destruct (negb _); simpl; auto.
    destruct (typeof_number _); simpl; auto.
    destruct (typeof_number _); simpl; auto.
  - apply get_location_state.
  - unfold grant_permission.
    destruct (authMiddleware cfg now a) as [r|user]; simpl; auto.
    destruct (negb _); simpl; auto.
    destruct (negb _); simpl; auto.
Qed.
